(** * Emojicode: call resolution (Compiler/AST/ASTMethod.hpp) and the
      package reporter (EmojicodeCompiler/PackageReporter.cpp)

    The development has two parts.  [ASTMethod] embeds the call node declared
    in ASTMethod.hpp: the [BuiltInType] enumeration is taken from the header;
    the member functions are only declared there, so their bodies follow the
    design document.  [PackageReporter] embeds PackageReporter.cpp statement
    by statement over a small state monad whose state holds the declaration
    heap, the call resolutions of the analysed functions and the bytes written
    to stdout. *)

From Stdlib Require Import ZArith Lia Ascii String List.
From stdpp Require Import base option list gmap strings.

Local Open Scope string_scope.

(** ** Text helpers shared by both parts *)

(** Bytes written to a [FILE*]. *)
Definition stream := list ascii.

(** The double quote character (ASCII 34) of the C++ literals. *)
Definition dq : string := String "034"%char EmptyString.

(** [q s] is [s] between two double quotes. *)
Definition q (s : string) : string := dq ++ s ++ dq.

(** [std::string::c_str()] handed to [%s] or to a [const char *] parameter:
    the bytes up to the first NUL. *)
Fixpoint c_str (s : string) : string :=
  match s with
  | EmptyString => EmptyString
  | String c s' => if Ascii.eqb c "000"%char then EmptyString else String c (c_str s')
  end.

(** * Part A: the call node of ASTMethod.hpp *)

Module BuiltInType.
(** [enum class BuiltInType] of [ASTMethodable], ASTMethod.hpp lines 27-36,
    variant by variant and in declaration order. *)
Inductive t :=
| None
| DoubleMultiply | DoubleAdd | DoubleSubstract | DoubleDivide | DoubleGreater | DoubleGreaterOrEqual
| DoubleLess | DoubleLessOrEqual | DoubleRemainder | DoubleEqual
| IntegerMultiply | IntegerAdd | IntegerSubstract | IntegerDivide | IntegerGreater | IntegerGreaterOrEqual
| IntegerLess | IntegerLessOrEqual | IntegerLeftShift | IntegerRightShift | IntegerOr | IntegerAnd | IntegerXor
| IntegerRemainder | IntegerToDouble | IntegerNot
| BooleanAnd | BooleanOr | BooleanNegate
| Equal | Store | Load | IsNoValueLeft | IsNoValueRight.

#[global] Instance eq_dec : EqDecision t.
Proof. solve_decision. Defined.

(** Every enumerator, in declaration order. *)
Definition variants : list t :=
  [ None;
    DoubleMultiply; DoubleAdd; DoubleSubstract; DoubleDivide; DoubleGreater; DoubleGreaterOrEqual;
    DoubleLess; DoubleLessOrEqual; DoubleRemainder; DoubleEqual;
    IntegerMultiply; IntegerAdd; IntegerSubstract; IntegerDivide; IntegerGreater; IntegerGreaterOrEqual;
    IntegerLess; IntegerLessOrEqual; IntegerLeftShift; IntegerRightShift; IntegerOr; IntegerAnd; IntegerXor;
    IntegerRemainder; IntegerToDouble; IntegerNot;
    BooleanAnd; BooleanOr; BooleanNegate;
    Equal; Store; Load; IsNoValueLeft; IsNoValueRight ].
End BuiltInType.

(** [enum class AccessLevel], used by both parts
    (PackageReporter.cpp lines 86-96: Private, Protected, Public). *)
Inductive AccessLevel := Private | Protected | Public.

Module ASTMethod.

(** Modelled from the spec: the data model of call resolution (design
    document, section 3).  ASTMethod.hpp only names the types [Type],
    [Function], [CallType] and [SemanticAnalyser]; their declarations are in
    headers that are not part of the sources at hand. *)
Inductive PrimitiveKind := Integer | Double | Boolean.

#[global] Instance PrimitiveKind_eq_dec : EqDecision PrimitiveKind.
Proof. solve_decision. Defined.

(** The categories the design document gives for the operator catalog
    (section 3): arithmetic on the two numeric kinds, comparisons, boolean
    connectives and negation, generic equality, raw store and load, and the
    optional-is-absent tests. *)
Inductive Category :=
| Arithmetic
| Comparison
| BooleanLogic
| GenericEquality
| RawStoreLoad
| OptionalAbsent.

(** The category of the document a variant of the header belongs to, read off
    its name; the integer shifts and bitwise operations are counted as integer
    arithmetic.  [None] names no operator and [IntegerToDouble] is a
    conversion: neither is in a category of the document. *)
Definition category (op : BuiltInType.t) : option Category :=
  match op with
  | BuiltInType.None => None
  | BuiltInType.DoubleMultiply | BuiltInType.DoubleAdd | BuiltInType.DoubleSubstract
  | BuiltInType.DoubleDivide | BuiltInType.DoubleRemainder => Some Arithmetic
  | BuiltInType.DoubleGreater | BuiltInType.DoubleGreaterOrEqual | BuiltInType.DoubleLess
  | BuiltInType.DoubleLessOrEqual | BuiltInType.DoubleEqual => Some Comparison
  | BuiltInType.IntegerMultiply | BuiltInType.IntegerAdd | BuiltInType.IntegerSubstract
  | BuiltInType.IntegerDivide | BuiltInType.IntegerRemainder
  | BuiltInType.IntegerLeftShift | BuiltInType.IntegerRightShift | BuiltInType.IntegerOr
  | BuiltInType.IntegerAnd | BuiltInType.IntegerXor | BuiltInType.IntegerNot => Some Arithmetic
  | BuiltInType.IntegerGreater | BuiltInType.IntegerGreaterOrEqual | BuiltInType.IntegerLess
  | BuiltInType.IntegerLessOrEqual => Some Comparison
  | BuiltInType.IntegerToDouble => None
  | BuiltInType.BooleanAnd | BuiltInType.BooleanOr | BuiltInType.BooleanNegate => Some BooleanLogic
  | BuiltInType.Equal => Some GenericEquality
  | BuiltInType.Store | BuiltInType.Load => Some RawStoreLoad
  | BuiltInType.IsNoValueLeft | BuiltInType.IsNoValueRight => Some OptionalAbsent
  end.

(** The primitive kind a variant fixes for its receiver: the enumerators are
    plain names without payload, so this is the kind their name starts with,
    if it starts with one. *)
Definition namedKind (op : BuiltInType.t) : option PrimitiveKind :=
  match op with
  | BuiltInType.DoubleMultiply | BuiltInType.DoubleAdd | BuiltInType.DoubleSubstract
  | BuiltInType.DoubleDivide | BuiltInType.DoubleGreater | BuiltInType.DoubleGreaterOrEqual
  | BuiltInType.DoubleLess | BuiltInType.DoubleLessOrEqual | BuiltInType.DoubleRemainder
  | BuiltInType.DoubleEqual => Some Double
  | BuiltInType.IntegerMultiply | BuiltInType.IntegerAdd | BuiltInType.IntegerSubstract
  | BuiltInType.IntegerDivide | BuiltInType.IntegerGreater | BuiltInType.IntegerGreaterOrEqual
  | BuiltInType.IntegerLess | BuiltInType.IntegerLessOrEqual | BuiltInType.IntegerLeftShift
  | BuiltInType.IntegerRightShift | BuiltInType.IntegerOr | BuiltInType.IntegerAnd
  | BuiltInType.IntegerXor | BuiltInType.IntegerRemainder | BuiltInType.IntegerToDouble
  | BuiltInType.IntegerNot => Some Integer
  | BuiltInType.BooleanAnd | BuiltInType.BooleanOr | BuiltInType.BooleanNegate => Some Boolean
  | BuiltInType.None | BuiltInType.Equal | BuiltInType.Store | BuiltInType.Load
  | BuiltInType.IsNoValueLeft | BuiltInType.IsNoValueRight => None
  end.

(** References are stable identifiers into the declaration tables. *)
Inductive TypeTag :=
| Primitive (kind : PrimitiveKind)
| Class (ref : nat)
| ValueType (ref : nat)
| Enum (ref : nat)
| Protocol (ref : nat)
| ProtocolIntersection (members : list nat).

#[global] Instance TypeTag_eq_dec : EqDecision TypeTag.
Proof. solve_decision. Defined.

#[local] Unset Elimination Schemes.
Inductive TypeDescriptor := mkTypeDescriptor {
  tag : TypeTag;
  optional : bool;
  genericArguments : list TypeDescriptor;
}.
#[local] Set Elimination Schemes.

Record MethodSignature := {
  name : string;
  mutating : bool;
  access : AccessLevel;
  parameters : list TypeDescriptor;
  returnType : TypeDescriptor;
  genericParameters : list string;
  owner : TypeTag;
}.

(** Error kinds of section 7. *)
Inductive ResolutionError :=
| MethodNotFound
| AmbiguousProtocolMethod
| ArityMismatch
| ArgumentTypeMismatch (position : nat)
| AccessViolation
| GenericUnificationFailure
| MutationOnImmutableReceiver.

Inductive Result (A : Type) :=
| Ok (a : A)
| Err (e : ResolutionError).
Arguments Ok {A} a.
Arguments Err {A} e.

Inductive CallKind :=
| Unresolved
| Intrinsic (op : BuiltInType.t)
| StaticDispatch (sig : MethodSignature)
| DynamicDispatch (sig : MethodSignature)
| ProtocolDispatch (sig : MethodSignature) (protocol : nat).

Record CallResolution := {
  kind : CallKind;
  receiverType : TypeDescriptor;
  argumentTypes : list TypeDescriptor;
}.

(** States of the call node (section 4.4). *)
Inductive NodeState :=
| Unanalyzed
| BuiltInMatched (r : CallResolution)
| DispatchResolved (r : CallResolution)
| Failed (e : ResolutionError).

(** What the receiver expression denotes (section 4.3): a local variable, a
    member reached through a base expression, [self], or a temporary. *)
Inductive Storage :=
| LocalVariable (declaredMutable : bool)
| MemberAccess (base : Storage) (memberMutable : bool)
| Self (mutatingContext : bool)
| Temporary.

(** A sub-expression of the call as its own analysis leaves it: what it
    denotes and its checked type, or the error its analysis failed with. *)
Record ASTExpr := {
  storage : Storage;
  checked : Result TypeDescriptor;
}.

(** One row of the Built-in Intrinsic Table (section 2): operator name,
    receiver primitive kind and argument primitive kinds, mapped to the
    operator. *)
Record TableEntry := {
  entryName : string;
  receiverKind : PrimitiveKind;
  argumentKinds : list PrimitiveKind;
  operator : BuiltInType.t;
}.

(** Modelled from the spec: the [SemanticAnalyser] every member function of
    the header receives; its class is not part of the sources at hand.  It is
    the read-only context of section 9: the intrinsic table, the frozen
    per-type method tables and superclass chains of section 6, and the checks
    that follow a name match (generic unification, arity, access level and
    positional argument compatibility, section 4.2), which rest on the
    external services [isAssignable] and [unify] and are kept as one function
    returning the substituted return type.  A method table holds the
    declaration the resolver settles on for each name. *)
Record SemanticAnalyser := {
  intrinsics : list TableEntry;
  methodTable : TypeTag -> gmap string MethodSignature;
  superclassChain : nat -> list nat;
  verifyCall : MethodSignature -> TypeDescriptor -> list TypeDescriptor -> Result TypeDescriptor;
}.

(** *** The built-in phase *)

(** The primitive kind of a bare type: not optional, no generic arguments. *)
Definition bareKind (type : TypeDescriptor) : option PrimitiveKind :=
  match tag type, optional type, genericArguments type with
  | Primitive k, false, [] => Some k
  | _, _, _ => None
  end.

(** Exact match of name, receiver kind and every argument kind. *)
Definition entryMatches (name : string) (k : PrimitiveKind) (args : list TypeDescriptor)
    (e : TableEntry) : bool :=
  bool_decide (entryName e = name)
  && bool_decide (receiverKind e = k)
  && bool_decide (bareKind <$> args = Some <$> argumentKinds e).

(** The two optional-presence intrinsics. *)
Definition optionalPresence (op : BuiltInType.t) : bool :=
  match op with
  | BuiltInType.IsNoValueLeft | BuiltInType.IsNoValueRight => true
  | _ => false
  end.

(** The uniqueness invariant of the table (section 4.1): no two rows have
    the same name, receiver kind and argument kinds. *)
Definition uniqueRows (table : list TableEntry) : Prop :=
  forall e1 e2, e1 ∈ table -> e2 ∈ table ->
    entryName e1 = entryName e2 -> receiverKind e1 = receiverKind e2 ->
    argumentKinds e1 = argumentKinds e2 -> e1 = e2.

(** Modelled from the spec: the body of [ASTMethodable::builtIn], declared at
    ASTMethod.hpp line 43 and defined in a file that is not part of the
    sources at hand.  Section 4.1: the table is consulted for a primitive
    receiver without generic arguments; every row is eligible for a bare
    receiver, only the rows of the two optional-presence intrinsics for an
    optional one.  [Some op] stands for [true] with [builtIn_ = op], [None]
    for [false]. *)
Definition builtIn (analyser : SemanticAnalyser) (args : list TypeDescriptor)
    (type : TypeDescriptor) (name : string) : option BuiltInType.t :=
  match tag type, genericArguments type with
  | Primitive k, [] =>
      let eligible :=
        if optional type
        then List.filter (fun e => optionalPresence (operator e)) (intrinsics analyser)
        else intrinsics analyser in
      operator <$> List.find (entryMatches name k args) eligible
  | _, _ => None
  end.

(** *** The signature resolver *)

Definition declares (analyser : SemanticAnalyser) (type : TypeTag) (name : string) : bool :=
  bool_decide (is_Some (methodTable analyser type !! name)).

(** What the resolver returns on success (section 4.2): the declaration
    found and how the call is dispatched. *)
Inductive Dispatch :=
| Static
| Dynamic
| ViaProtocol (protocol : nat).

Record ResolvedCall := {
  signature : MethodSignature;
  dispatch : Dispatch;
}.

Definition callKind (rc : ResolvedCall) : CallKind :=
  match dispatch rc with
  | Static => StaticDispatch (signature rc)
  | Dynamic => DynamicDispatch (signature rc)
  | ViaProtocol p => ProtocolDispatch (signature rc) p
  end.

Definition found (d : Dispatch) (o : option MethodSignature) : Result ResolvedCall :=
  match o with
  | Some sig => Ok {| signature := sig; dispatch := d |}
  | None => Err MethodNotFound
  end.

(** Modelled from the spec: the body of
    [ASTMethodable::analyseMultiProtocolCall], declared at ASTMethod.hpp
    line 45.  Section 4.2, ProtocolIntersection: every member protocol is
    searched for the name; one declaring member gives a protocol dispatch
    tagged with that member, none gives method-not-found, more than one is
    ambiguous. *)
Definition analyseMultiProtocolCall (analyser : SemanticAnalyser) (name : string)
    (members : list nat) : Result ResolvedCall :=
  match List.filter (fun p => declares analyser (Protocol p) name) members with
  | [] => Err MethodNotFound
  | [p] => found (ViaProtocol p) (methodTable analyser (Protocol p) !! name)
  | _ :: _ :: _ => Err AmbiguousProtocolMethod
  end.

(** First class of the chain whose own table declares the name. *)
Fixpoint searchChain (analyser : SemanticAnalyser) (name : string) (chain : list nat)
    : option MethodSignature :=
  match chain with
  | [] => None
  | c :: up =>
      match methodTable analyser (Class c) !! name with
      | Some sig => Some sig
      | None => searchChain analyser name up
      end
  end.

(** Modelled from the spec: the name search of the Signature Resolver
    (section 4.2), by receiver tag.  A class receiver walks its superclass
    chain and is dispatched dynamically (the policy section 9 leaves open is
    settled as: always dynamic); value types and enums search their own table
    and are dispatched statically, and so are primitive kinds, whose methods
    the document treats as declared on a closed value-like type; a protocol
    gives a protocol dispatch. *)
Definition resolve (analyser : SemanticAnalyser) (type : TypeDescriptor) (name : string)
    : Result ResolvedCall :=
  match tag type with
  | Class c => found Dynamic (searchChain analyser name (c :: superclassChain analyser c))
  | ValueType _ | Enum _ | Primitive _ => found Static (methodTable analyser (tag type) !! name)
  | Protocol p => found (ViaProtocol p) (methodTable analyser (Protocol p) !! name)
  | ProtocolIntersection members => analyseMultiProtocolCall analyser name members
  end.

(** *** The mutation safety checker *)

(** An addressable, declared-mutable storage location: a mutable local
    variable, a mutable member reached through a mutable chain, or [self] in
    a mutating context. *)
Fixpoint addressableMutable (s : Storage) : bool :=
  match s with
  | LocalVariable declaredMutable => declaredMutable
  | MemberAccess base memberMutable => memberMutable && addressableMutable base
  | Self mutatingContext => mutatingContext
  | Temporary => false
  end.

(** Modelled from the spec: the body of [ASTMethodable::checkMutation],
    declared at ASTMethod.hpp lines 47-48 (section 4.3). *)
Definition checkMutation (callee : ASTExpr) (method : MethodSignature) : Result unit :=
  if mutating method
  then if addressableMutable (storage callee) then Ok tt else Err MutationOnImmutableReceiver
  else Ok tt.

(** *** The call node *)

(** What the node does after the built-in phase, in the order it is done. *)
Inductive Event :=
| ResolverInvoked
| MutationChecked
| CallVerified.

#[global] Instance Event_eq_dec : EqDecision Event.
Proof. solve_decision. Defined.

(** Modelled from the spec: the dispatch path of the call node (sections 2
    and 4.4): the resolver finds the method, the mutation checker runs
    against the found method, then the checks that follow a name match, and
    the dispatch decision is recorded.  The first failure ends the path.  The
    second component lists the steps that ran. *)
Definition analyseDispatch (analyser : SemanticAnalyser) (args : list TypeDescriptor)
    (name : string) (callee : ASTExpr) (type : TypeDescriptor) : NodeState * list Event :=
  match resolve analyser type name with
  | Err e => (Failed e, [ResolverInvoked])
  | Ok rc =>
      match checkMutation callee (signature rc) with
      | Err e => (Failed e, [ResolverInvoked; MutationChecked])
      | Ok _ =>
          match verifyCall analyser (signature rc) type args with
          | Err e => (Failed e, [ResolverInvoked; MutationChecked; CallVerified])
          | Ok _ =>
              (DispatchResolved {| kind := callKind rc; receiverType := type; argumentTypes := args |},
               [ResolverInvoked; MutationChecked; CallVerified])
          end
      end
  end.

(** Modelled from the spec: the body of [ASTMethodable::analyseMethodCall],
    declared at ASTMethod.hpp lines 24-25.  Sections 2 and 4.4: the built-in
    phase comes first and a match ends the analysis; otherwise the dispatch
    path runs. *)
Definition analyseMethodCall (analyser : SemanticAnalyser) (args : list TypeDescriptor)
    (name : string) (callee : ASTExpr) (type : TypeDescriptor) : NodeState * list Event :=
  match builtIn analyser args type name with
  | Some op =>
      (BuiltInMatched {| kind := Intrinsic op; receiverType := type; argumentTypes := args |}, [])
  | None => analyseDispatch analyser args name callee type
  end.

(** *** Statements of the design document used below *)

(** The catalog as section 3 describes it: every variant is in one of the
    categories and fixes the primitive kind it matches. *)
Definition catalog_as_documented : Prop :=
  forall op : BuiltInType.t, is_Some (category op) /\ is_Some (namedKind op).

(** The analyser with other checks after a name match. *)
Definition withVerifyCall (analyser : SemanticAnalyser)
    (verify : MethodSignature -> TypeDescriptor -> list TypeDescriptor -> Result TypeDescriptor)
    : SemanticAnalyser :=
  {| intrinsics := intrinsics analyser; methodTable := methodTable analyser;
     superclassChain := superclassChain analyser; verifyCall := verify |}.

End ASTMethod.

(** * Part B: PackageReporter.cpp *)

Module PackageReporter.

(** [std::u32string]: a sequence of UTF-32 code points. *)
Definition u32string := list N.

(** Address of an object of the declaration heap. *)
Definition ptr := nat.

(** [size_t] is taken to be 64 bits wide; subtraction wraps around. *)
Definition size_t_modulus : Z := 2 ^ 64.

Definition size_t_sub (a b : Z) : Z := ((a - b) mod size_t_modulus)%Z.

(** [std::map<K, V>] as the list of its entries in iteration order
    (ascending keys, one entry per key). *)
Definition std_map (K V : Type) := list (K * V).

(** [enum class ReturnKind], lines 26-30. *)
Inductive ReturnKind := Return | NoReturn | ErrorProneInitializer.

(** The [TypeType] cases [reportPackage] tells apart (lines 217-232); every
    other enumerator takes the default branch. *)
Inductive TypeType := TypeTypeClass | TypeTypeEnum | TypeTypeProtocol | TypeTypeValueType | TypeTypeOther.

#[global] Instance TypeType_eq_dec : EqDecision TypeType.
Proof. solve_decision. Defined.

(** [TypeContext(Type(typeDef_, false))] and
    [TypeContext(Type(typeDef_, false), function)]: the context is given by
    the type definition and, when present, the function. *)
Record TypeContext := {
  calleeDefinition : ptr;
  contextFunction : option ptr;
}.

(** The class [Type] is declared outside the sources at hand; a value is
    represented by what the accessors called in this file return for it. *)
Record Ty := {
  type : TypeType;
  typeDefinition : ptr;             (* eclass(), eenum(), protocol(), valueType() *)
  genericVariableIndex : Z;         (* a size_t *)
  typePackage : string;
  optional : bool;
  toString : TypeContext -> string;
}.

Module Argument.
Record t := {
  type : Ty;
  variableName : u32string;
}.
End Argument.

Module Initializer.
Record t := {
  errorType : Ty;
  errorProne : bool;
}.
End Initializer.

Module Function.
Record t := {
  name : u32string;
  accessLevel : AccessLevel;
  returnType : Ty;
  genericArgumentVariables : std_map u32string Ty;
  genericArgumentConstraints : list Ty;
  documentation : u32string;
  arguments : list Argument.t;
  initializer : option Initializer.t;   (* the object seen through dynamic_cast<Initializer *> *)
}.
End Function.

Module TypeDefinition.
(** What the derived classes add: [Class::superclass()] and
    [Enum::values()], whose entries map a name to a pair with the
    documentation second. *)
Inductive derived :=
| IsClass (superclass : option ptr)
| IsEnum (values : std_map u32string (Z * u32string))
| IsProtocol
| IsValueType.

Record t := {
  name : u32string;
  package : ptr;
  protocols : list Ty;
  ownGenericArgumentVariables : std_map u32string Ty;
  genericArgumentConstraints : list Ty;
  superGenericArguments : list Ty;
  documentation : u32string;
  methodList : list ptr;
  initializerList : list ptr;
  typeMethodList : list ptr;
  self : derived;
}.
End TypeDefinition.

Module ExportedType.
Record t := {
  type : Ty;
}.
End ExportedType.

Module Package.
Record t := {
  name : string;
  exportedTypes : list ExportedType.t;
  documentation : u32string;
}.
End Package.

(** The declarations the compiler has collected, by address. *)
Record Heap := {
  functions : gmap ptr Function.t;
  typeDefinitions : gmap ptr TypeDefinition.t;
  packages : gmap ptr Package.t;
}.

(** The state the reporter runs in: the declaration heap, the resolutions
    recorded by the call nodes of the analysed functions, and stdout. *)
Record World := {
  heap : Heap;
  resolutions : list ASTMethod.CallResolution;
  stdout : stream;
}.

(** A computation over the world; [None] is undefined behaviour (an access
    out of bounds or through a pointer to no object). *)
Definition IO (A : Type) : Type := World -> option (A * World).

#[global] Instance IO_ret : MRet IO := fun A a w => Some (a, w).

#[global] Instance IO_bind : MBind IO := fun A B f m w =>
  match m w with
  | Some (a, w') => f a w'
  | None => None
  end.

Definition undefined {A} : IO A := fun _ => None.

Definition write (bytes : stream) : IO unit := fun w =>
  Some (tt, {| heap := heap w; resolutions := resolutions w; stdout := (stdout w ++ bytes)%list |}).

(** [printf] with its format already filled in. *)
Definition printf (text : string) : IO unit := write (list_ascii_of_string text).

Definition putc (c : ascii) : IO unit := write [c].

(** Reading through a pointer. *)
Definition read {A} (table : Heap -> gmap ptr A) (p : ptr) : IO A := fun w =>
  match table (heap w) !! p with
  | Some a => Some (a, w)
  | None => None
  end.

(** A range-based [for] whose body updates a local object [s]. *)
Fixpoint for_each {A S} (xs : list A) (body : A -> S -> IO S) (s : S) : IO S :=
  match xs with
  | [] => mret s
  | x :: rest => s' ← body x s; for_each rest body s'
  end.

(** [class CommaPrinter], lines 48-59. *)
Record CommaPrinter := {
  printedFirst_ : bool;
}.

Definition CommaPrinter_default : CommaPrinter := {| printedFirst_ := false |}.

Definition CommaPrinter_print (printer : CommaPrinter) : IO CommaPrinter :=
  _ ← (if printedFirst_ printer then putc "," else mret tt);
  mret {| printedFirst_ := true |}.

Definition boolText (b : bool) : string := if b then "true" else "false".

(** [emit w text]: the world after [text] has been written to stdout and
    nothing else has changed. *)
Definition emit (w : World) (text : stream) : World :=
  {| heap := heap w; resolutions := resolutions w; stdout := (stdout w ++ text)%list |}.

(** What a computation returns and writes when it is run on a declaration
    heap, with no resolutions recorded and nothing on stdout yet. *)
Definition denote {A} (m : IO A) (h : Heap) : option (A * stream) :=
  match m {| heap := h; resolutions := []; stdout := [] |} with
  | Some (a, w') => Some (a, stdout w')
  | None => None
  end.

(** A computation that only reads the declaration heap and only appends to
    stdout: its result and the text it writes are a function of the heap. *)
Definition ReadOnly {A} (m : IO A) : Prop :=
  forall w, m w = (fun r => (r.1, emit w r.2)) <$> denote m (heap w).

(** The text a computation writes, if it is defined. *)
Definition textOf {A} (m : IO A) (h : Heap) : option stream := snd <$> denote m h.

(** Texts separated by commas. *)
Fixpoint joinComma (texts : list stream) : stream :=
  match texts with
  | [] => []
  | [t] => t
  | t :: rest => (t ++ ","%char :: joinComma rest)%list
  end.

Section Reporter.

(** Declared in headers outside the sources at hand: [utf8] converts to
    UTF-8, and [printJSONStringToFile] writes a C string as a JSON string;
    [JSONString] is the text it writes. *)
Context (utf8 : u32string -> string) (JSONString : string -> stream).

Definition printJSONStringToFile (text : string) : IO unit := write (JSONString text).

(** Lines 32-40. *)
Definition reportDocumentation (documentation : u32string) : IO unit :=
  match documentation with
  | [] => mret tt
  | _ :: _ =>
      _ ← printf (q "documentation" ++ ":");
      _ ← printJSONStringToFile (c_str (utf8 documentation));
      putc ","
  end.

(** The documentation entry written in full: for a non-empty documentation
    string the key, the JSON string of the whole UTF-8 text, and a comma. *)
Definition documentation_in_full : Prop :=
  forall (documentation : u32string) (w : World),
    documentation <> [] ->
    reportDocumentation documentation w
    = Some (tt, emit w (list_ascii_of_string (q "documentation" ++ ":")
                        ++ JSONString (utf8 documentation) ++ [","%char])%list).

(** The text of the single [printf] of [reportType], lines 43-45. *)
Definition typeText (type : Ty) (tc : TypeContext) : string :=
  let returnTypeName := toString type tc in
  "{" ++ q "package" ++ ":" ++ q (c_str (typePackage type)) ++ ","
      ++ q "name" ++ ":" ++ q (c_str returnTypeName) ++ ","
      ++ q "optional" ++ ":" ++ boolText (optional type) ++ "}".

(** Lines 42-46. *)
Definition reportType (type : Ty) (tc : TypeContext) : IO unit := printf (typeText type tc).

(** The index [it.second.genericVariableIndex() - superCount] of line 67,
    computed in [size_t]. *)
Definition slot (superCount : Z) (type : Ty) : nat :=
  Z.to_nat (size_t_sub (genericVariableIndex type) superCount).

(** The first loop of [reportGenericArguments], lines 66-68: an unchecked
    write into [gans]. *)
Fixpoint fillNames (map : std_map u32string Ty) (superCount : Z) (gans : list u32string)
    : option (list u32string) :=
  match map with
  | [] => Some gans
  | it :: rest =>
      let i := slot superCount it.2 in
      if bool_decide (i < length gans)
      then fillNames rest superCount (<[i := it.1]> gans)
      else None
  end.

(** Lines 61-82. *)
Definition reportGenericArguments (map : std_map u32string Ty) (constraints : list Ty)
    (superCount : Z) (tc : TypeContext) : IO unit :=
  _ ← printf (q "genericArguments" ++ ":[");
  match fillNames map superCount (replicate (length map) []) with
  | None => undefined
  | Some gans =>
      _ ← for_each (seq 0 (length gans)) (fun i printer =>
            printer ← CommaPrinter_print printer;
            _ ← match gans !! i, constraints !! i with
                | Some gan, Some constraint =>
                    _ ← printf ("{" ++ q "name" ++ ":");
                    _ ← printJSONStringToFile (c_str (utf8 gan));
                    _ ← printf ("," ++ q "constraint" ++ ":");
                    _ ← reportType constraint tc;
                    printf "}"
                | _, _ => undefined
                end;
            mret printer) CommaPrinter_default;
      printf "],"
  end.

(** What one round of the second loop writes after the separator, lines
    74-78. *)
Definition genericArgumentText (tc : TypeContext) (gan : u32string) (constraint : Ty) : stream :=
  (list_ascii_of_string ("{" ++ q "name" ++ ":")
   ++ JSONString (c_str (utf8 gan))
   ++ list_ascii_of_string ("," ++ q "constraint" ++ ":")
   ++ list_ascii_of_string (typeText constraint tc)
   ++ list_ascii_of_string "}")%list.

(** Everything [reportGenericArguments] writes for the names [gans]. *)
Definition genericArgumentsText (tc : TypeContext) (gans : list u32string) (constraints : list Ty)
    : stream :=
  (list_ascii_of_string (q "genericArguments" ++ ":[")
   ++ joinComma (zip_with (genericArgumentText tc) gans constraints)
   ++ list_ascii_of_string "],")%list.

Definition accessText (level : AccessLevel) : string :=
  match level with
  | Private => q "access" ++ ":" ++ q "🔒" ++ ","
  | Protected => q "access" ++ ":" ++ q "🔐" ++ ","
  | Public => q "access" ++ ":" ++ q "🔓" ++ ","
  end.

(** Lines 84-123. *)
Definition reportFunction (function : ptr) (returnKind : ReturnKind) (tc : TypeContext) : IO unit :=
  f ← read functions function;
  _ ← printf ("{" ++ q "name" ++ ":" ++ q (c_str (utf8 (Function.name f))) ++ ",");
  _ ← printf (accessText (Function.accessLevel f));
  _ ← match returnKind with
      | Return =>
          _ ← printf (q "returnType" ++ ":");
          _ ← reportType (Function.returnType f) tc;
          putc ","
      | ErrorProneInitializer =>
          _ ← printf (q "errorType" ++ ":");
          match Function.initializer f with
          | Some init => _ ← reportType (Initializer.errorType init) tc; putc ","
          | None => undefined
          end
      | NoReturn => mret tt
      end;
  _ ← reportGenericArguments (Function.genericArgumentVariables f)
        (Function.genericArgumentConstraints f) 0 tc;
  _ ← reportDocumentation (Function.documentation f);
  _ ← printf (q "arguments" ++ ":[");
  _ ← for_each (Function.arguments f) (fun argument printer =>
        printer ← CommaPrinter_print printer;
        _ ← printf ("{" ++ q "type" ++ ":");
        _ ← reportType (Argument.type argument) tc;
        _ ← printf ("," ++ q "name" ++ ":");
        _ ← printJSONStringToFile (c_str (utf8 (Argument.variableName argument)));
        _ ← printf "}";
        mret printer) CommaPrinter_default;
  printf "]}".

(** [TypeDefinitionReporter::printFunctions], lines 170-176. *)
Definition printFunctions (typeDef_ : ptr) (functions : list ptr) : IO unit :=
  _ ← for_each functions (fun function printer =>
        printer ← CommaPrinter_print printer;
        _ ← reportFunction function Return
              {| calleeDefinition := typeDef_; contextFunction := Some function |};
        mret printer) CommaPrinter_default;
  mret tt.

(** [errorProne()] of an element of [initializerList()]. *)
Definition initializerKind (initializer : ptr) : IO ReturnKind :=
  f ← read functions initializer;
  match Function.initializer f with
  | Some init => mret (if Initializer.errorProne init then ErrorProneInitializer else NoReturn)
  | None => undefined
  end.

(** [TypeDefinitionReporter::reportBasics], lines 137-168. *)
Definition reportBasics (typeDef_ : ptr) : IO unit :=
  d ← read typeDefinitions typeDef_;
  let tc := {| calleeDefinition := typeDef_; contextFunction := None |} in
  _ ← printf ("{" ++ q "name" ++ ": " ++ q (c_str (utf8 (TypeDefinition.name d))) ++ ",");
  _ ← printf (q "conformsTo" ++ ":[");
  _ ← for_each (TypeDefinition.protocols d) (fun protocol printer =>
        printer ← CommaPrinter_print printer;
        _ ← reportType protocol tc;
        mret printer) CommaPrinter_default;
  _ ← printf "],";
  _ ← reportGenericArguments (TypeDefinition.ownGenericArgumentVariables d)
        (TypeDefinition.genericArgumentConstraints d)
        (Z.of_nat (length (TypeDefinition.superGenericArguments d))) tc;
  _ ← reportDocumentation (TypeDefinition.documentation d);
  _ ← printf (q "methods" ++ ":[");
  _ ← printFunctions typeDef_ (TypeDefinition.methodList d);
  _ ← printf "],";
  _ ← printf (q "initializers" ++ ":[");
  _ ← for_each (TypeDefinition.initializerList d) (fun initializer initializerPrinter =>
        initializerPrinter ← CommaPrinter_print initializerPrinter;
        returnKind ← initializerKind initializer;
        _ ← reportFunction initializer returnKind
              {| calleeDefinition := typeDef_; contextFunction := Some initializer |};
        mret initializerPrinter) CommaPrinter_default;
  _ ← printf "],";
  _ ← printf (q "typeMethods" ++ ":[");
  _ ← printFunctions typeDef_ (TypeDefinition.typeMethodList d);
  printf "]".

(** [ClassReporter::reportBasics], lines 183-189. *)
Definition ClassReporter_reportBasics (typeDef_ : ptr) : IO unit :=
  _ ← reportBasics typeDef_;
  d ← read typeDefinitions typeDef_;
  match TypeDefinition.self d with
  | TypeDefinition.IsClass (Some superclass) =>
      s ← read typeDefinitions superclass;
      p ← read packages (TypeDefinition.package s);
      printf ("," ++ q "superclass" ++ ":{" ++ q "package" ++ ":" ++ q (c_str (Package.name p)) ++ ","
                  ++ q "name" ++ ":" ++ q (c_str (utf8 (TypeDefinition.name s))) ++ "}")
  | TypeDefinition.IsClass None => mret tt
  | _ => undefined
  end.

(** [EnumReporter::reportBasics], lines 196-207. *)
Definition EnumReporter_reportBasics (typeDef_ : ptr) : IO unit :=
  _ ← reportBasics typeDef_;
  d ← read typeDefinitions typeDef_;
  match TypeDefinition.self d with
  | TypeDefinition.IsEnum values =>
      _ ← printf ("," ++ q "values" ++ ":[");
      _ ← for_each values (fun it printer =>
            printer ← CommaPrinter_print printer;
            _ ← printf "{";
            _ ← reportDocumentation it.2.2;
            _ ← printf (q "value" ++ ":" ++ q (c_str (utf8 it.1)) ++ "}");
            mret printer) CommaPrinter_default;
      printf "]"
  | _ => undefined
  end.

(** [TypeDefinitionReporter::report], lines 130-133; the virtual
    [reportBasics] is the argument. *)
Definition report (basics : ptr -> IO unit) (typeDef_ : ptr) : IO unit :=
  _ ← basics typeDef_;
  printf "}".

(** The four lists [reportPackage] fills, lines 211-233: the definitions of
    the exported types of one [TypeType], in export order. *)
Definition exportedOf (tt : TypeType) (exported : list ExportedType.t) : list ptr :=
  typeDefinition <$> List.filter (fun t => bool_decide (type t = tt)) (ExportedType.type <$> exported).

Definition reportAll (basics : ptr -> IO unit) (typeDefs : list ptr) : IO unit :=
  _ ← for_each typeDefs (fun typeDef printer =>
        printer ← CommaPrinter_print printer;
        _ ← report basics typeDef;
        mret printer) CommaPrinter_default;
  mret tt.

(** Lines 210-269. *)
Definition reportPackage (package : ptr) : IO unit :=
  p ← read packages package;
  let enums := exportedOf TypeTypeEnum (Package.exportedTypes p) in
  let classes := exportedOf TypeTypeClass (Package.exportedTypes p) in
  let protocols := exportedOf TypeTypeProtocol (Package.exportedTypes p) in
  let valueTypes := exportedOf TypeTypeValueType (Package.exportedTypes p) in
  _ ← printf "{";
  _ ← reportDocumentation (Package.documentation p);
  _ ← printf (q "valueTypes" ++ ":[");
  _ ← reportAll reportBasics valueTypes;
  _ ← printf "],";
  _ ← printf (q "classes" ++ ":[");
  _ ← reportAll ClassReporter_reportBasics classes;
  _ ← printf "],";
  _ ← printf (q "enums" ++ ": [");
  _ ← reportAll EnumReporter_reportBasics enums;
  _ ← printf "],";
  _ ← printf (q "protocols" ++ ":[");
  _ ← reportAll reportBasics protocols;
  printf "]}".

End Reporter.

End PackageReporter.

(** * Sample declarations

    A small package on which the reporter can be run. *)

Module Sample.
Import PackageReporter.

(** Code points below 128 are their own UTF-8 encoding. *)
Definition utf8 (s : u32string) : string := string_of_list_ascii (ascii_of_N <$> s).

(** Text without quotes, backslashes or control characters needs no escape. *)
Definition JSONString (s : string) : stream := list_ascii_of_string (q s).

Definition u32 (s : string) : u32string := N_of_ascii <$> list_ascii_of_string s.

Definition named (tt : TypeType) (definition : ptr) (index : Z) (name : string) : Ty :=
  {| type := tt; typeDefinition := definition; genericVariableIndex := index;
     typePackage := "demo"; optional := false; toString := fun _ => name |}.

Definition generic (index : Z) (name : string) : Ty := named TypeTypeOther 0 index name.

Definition area : Function.t :=
  {| Function.name := u32 "area"; Function.accessLevel := Public;
     Function.returnType := generic 0 "Number";
     Function.genericArgumentVariables := [(u32 "A", generic 1 "A"); (u32 "B", generic 0 "B")];
     Function.genericArgumentConstraints := [generic 0 "Any"; generic 0 "Some"];
     Function.documentation := u32 "The area.";
     Function.arguments := [ {| Argument.type := generic 0 "Number"; Argument.variableName := u32 "scale" |} ];
     Function.initializer := None |}.

Definition make : Function.t :=
  {| Function.name := u32 "make"; Function.accessLevel := Private;
     Function.returnType := generic 0 "Nothing";
     Function.genericArgumentVariables := [];
     Function.genericArgumentConstraints := [];
     Function.documentation := [];
     Function.arguments := [];
     Function.initializer := Some {| Initializer.errorType := generic 0 "Failure";
                                     Initializer.errorProne := true |} |}.

Definition definition (name : string) (methods initializers : list ptr)
    (self : TypeDefinition.derived) : TypeDefinition.t :=
  {| TypeDefinition.name := u32 name; TypeDefinition.package := 0;
     TypeDefinition.protocols := [];
     TypeDefinition.ownGenericArgumentVariables := [];
     TypeDefinition.genericArgumentConstraints := [];
     TypeDefinition.superGenericArguments := [];
     TypeDefinition.documentation := [];
     TypeDefinition.methodList := methods;
     TypeDefinition.initializerList := initializers;
     TypeDefinition.typeMethodList := [];
     TypeDefinition.self := self |}.

Definition demo : Package.t :=
  {| Package.name := "demo";
     Package.exportedTypes :=
       [ {| ExportedType.type := named TypeTypeClass 1 0 "Square" |};
         {| ExportedType.type := named TypeTypeEnum 3 0 "Colour" |};
         {| ExportedType.type := named TypeTypeProtocol 4 0 "Drawable" |} ];
     Package.documentation := u32 "Shapes." |}.

Definition declarations : Heap :=
  {| functions := {[ 10 := area; 11 := make ]};
     typeDefinitions :=
       {[ 1 := definition "Square" [10] [11] (TypeDefinition.IsClass (Some 2));
          2 := definition "Shape" [] [] (TypeDefinition.IsClass None);
          3 := definition "Colour" [] []
                 (TypeDefinition.IsEnum [(u32 "red", (0%Z, u32 "Warm.")); (u32 "teal", (1%Z, []))]);
          4 := definition "Drawable" [] [] TypeDefinition.IsProtocol ]};
     packages := {[ 0 := demo ]} |}.

Definition world : World := {| heap := declarations; resolutions := []; stdout := [] |}.

Definition noContext : TypeContext := {| calleeDefinition := 0; contextFunction := None |}.

End Sample.

(** * Sample calls

    A small analyser: two intrinsics, two protocols that both declare
    [describe], a value type with a mutating method and a class with a
    subclass. *)

Module SampleCalls.
Import ASTMethod.

Definition bare (t : TypeTag) : TypeDescriptor :=
  {| tag := t; optional := false; genericArguments := [] |}.

Definition boxed (t : TypeTag) : TypeDescriptor :=
  {| tag := t; optional := true; genericArguments := [] |}.

Definition method (name : string) (mutating : bool) (owner : TypeTag)
    (parameters : list TypeDescriptor) : MethodSignature :=
  {| name := name; mutating := mutating; access := Public; parameters := parameters;
     returnType := bare (Primitive Integer); genericParameters := []; owner := owner |}.

Definition Comparable : nat := 0.
Definition Printable : nat := 1.
Definition Counter : nat := 0.
Definition Animal : nat := 0.
Definition Dog : nat := 1.

Definition integerAdd : TableEntry :=
  {| entryName := "add"; receiverKind := Integer; argumentKinds := [Integer];
     operator := BuiltInType.IntegerAdd |}.

Definition integerAbsent : TableEntry :=
  {| entryName := "absent"; receiverKind := Integer; argumentKinds := [];
     operator := BuiltInType.IsNoValueLeft |}.

Definition tables (type : TypeTag) : gmap string MethodSignature :=
  match type with
  | Primitive Integer => {[ "add" := method "add" false (Primitive Integer) [bare (Primitive Integer)];
                             "text" := method "text" false (Primitive Integer) [] ]}
  | Protocol 0 => {[ "describe" := method "describe" false (Protocol 0) [];
                     "compare" := method "compare" false (Protocol 0) [bare (Protocol 0)] ]}
  | Protocol 1 => {[ "describe" := method "describe" false (Protocol 1) [bare (Primitive Integer)];
                     "print" := method "print" false (Protocol 1) [] ]}
  | ValueType 0 => {[ "increment" := method "increment" true (ValueType 0) [];
                      "value" := method "value" false (ValueType 0) [] ]}
  | Class 0 => {[ "speak" := method "speak" false (Class 0) [] ]}
  | Class 1 => {[ "fetch" := method "fetch" false (Class 1) [] ]}
  | _ => ∅
  end.

Definition arity (sig : MethodSignature) (type : TypeDescriptor) (args : list TypeDescriptor)
    : Result TypeDescriptor :=
  if bool_decide (length args = length (parameters sig)) then Ok (returnType sig)
  else Err ArityMismatch.

Definition analyser : SemanticAnalyser :=
  {| intrinsics := [integerAdd; integerAbsent];
     methodTable := tables;
     superclassChain := fun c => match c with 1 => [Animal] | _ => [] end;
     verifyCall := arity |}.

Definition expression (storage : Storage) (type : TypeDescriptor) : ASTExpr :=
  {| storage := storage; checked := Ok type |}.

End SampleCalls.

(** * The text of the report

    What the reporter writes, as functions of the declarations. *)

Module ReporterText.
Import PackageReporter.

Local Open Scope list_scope.

(** The name the first loop of [reportGenericArguments] leaves in slot [i]:
    that of the last entry, in iteration order, whose index minus
    [superCount] is [i]; the empty string of the fresh vector if there is
    none. *)
Definition lastWriter (map : std_map u32string Ty) (superCount : Z) (i : nat) : u32string :=
  match last (List.filter (fun it => bool_decide (slot superCount it.2 = i)) map) with
  | Some it => it.1
  | None => []
  end.

Section Texts.

Context (utf8 : u32string -> string) (JSONString : string -> stream).

(** What [reportDocumentation] writes, lines 32-40. *)
Definition documentationText (documentation : u32string) : stream :=
  match documentation with
  | [] => []
  | _ :: _ =>
      list_ascii_of_string (q "documentation" ++ ":")%string
      ++ JSONString (c_str (utf8 documentation)) ++ [","%char]
  end.

(** What [reportGenericArguments] writes, lines 61-82, when it stays in
    bounds. *)
Definition genericText (map : std_map u32string Ty) (constraints : list Ty) (superCount : Z)
    (tc : TypeContext) : option stream :=
  gans ← fillNames map superCount (replicate (length map) []);
  if bool_decide (length map <= length constraints)
  then Some (genericArgumentsText utf8 JSONString tc gans constraints)
  else None.

(** The member [reportFunction] writes for the return kind, lines 98-107. *)
Definition returnText (f : Function.t) (returnKind : ReturnKind) (tc : TypeContext)
    : option stream :=
  match returnKind with
  | Return =>
      Some (list_ascii_of_string (q "returnType" ++ ":")%string
            ++ list_ascii_of_string (typeText (Function.returnType f) tc) ++ [","%char])
  | ErrorProneInitializer =>
      init ← Function.initializer f;
      Some (list_ascii_of_string (q "errorType" ++ ":")%string
            ++ list_ascii_of_string (typeText (Initializer.errorType init) tc) ++ [","%char])
  | NoReturn => Some []
  end.

(** One round of the argument loop of [reportFunction], lines 116-120. *)
Definition argumentText (tc : TypeContext) (argument : Argument.t) : stream :=
  list_ascii_of_string ("{" ++ q "type" ++ ":")%string
  ++ list_ascii_of_string (typeText (Argument.type argument) tc)
  ++ list_ascii_of_string ("," ++ q "name" ++ ":")%string
  ++ JSONString (c_str (utf8 (Argument.variableName argument)))
  ++ list_ascii_of_string "}".

(** What [reportFunction] writes for the function object [f], lines 84-123. *)
Definition functionText (f : Function.t) (returnKind : ReturnKind) (tc : TypeContext)
    : option stream :=
  ret ← returnText f returnKind tc;
  generics ← genericText (Function.genericArgumentVariables f)
                (Function.genericArgumentConstraints f) 0 tc;
  Some (list_ascii_of_string ("{" ++ q "name" ++ ":" ++ q (c_str (utf8 (Function.name f))) ++ ",")%string
        ++ list_ascii_of_string (accessText (Function.accessLevel f))
        ++ ret ++ generics
        ++ documentationText (Function.documentation f)
        ++ list_ascii_of_string (q "arguments" ++ ":[")%string
        ++ joinComma (argumentText tc <$> Function.arguments f)
        ++ list_ascii_of_string "]}").

(** The functions [printFunctions] writes, lines 170-176. *)
Definition functionsText (h : Heap) (typeDef_ : ptr) (functions : list ptr) : option stream :=
  joinComma <$>
    mapM (fun function =>
            textOf (reportFunction utf8 JSONString function Return
                      {| calleeDefinition := typeDef_; contextFunction := Some function |}) h)
         functions.

(** One round of the initializer loop of [reportBasics], lines 159-161. *)
Definition reportInitializer (typeDef_ : ptr) (initializer : ptr) : IO unit :=
  returnKind ← initializerKind initializer;
  reportFunction utf8 JSONString initializer returnKind
    {| calleeDefinition := typeDef_; contextFunction := Some initializer |}.

(** What [reportBasics] writes for a type definition, lines 137-168. *)
Definition basicsText (h : Heap) (typeDef_ : ptr) : option stream :=
  d ← typeDefinitions h !! typeDef_;
  let tc := {| calleeDefinition := typeDef_; contextFunction := None |} in
  generics ← genericText (TypeDefinition.ownGenericArgumentVariables d)
                (TypeDefinition.genericArgumentConstraints d)
                (Z.of_nat (length (TypeDefinition.superGenericArguments d))) tc;
  methods ← functionsText h typeDef_ (TypeDefinition.methodList d);
  initializers ← joinComma <$>
                   mapM (fun initializer => textOf (reportInitializer typeDef_ initializer) h)
                        (TypeDefinition.initializerList d);
  typeMethods ← functionsText h typeDef_ (TypeDefinition.typeMethodList d);
  Some (list_ascii_of_string ("{" ++ q "name" ++ ": " ++ q (c_str (utf8 (TypeDefinition.name d))) ++ ",")%string
        ++ list_ascii_of_string (q "conformsTo" ++ ":[")%string
        ++ joinComma ((fun protocol => list_ascii_of_string (typeText protocol tc))
                        <$> TypeDefinition.protocols d)
        ++ list_ascii_of_string "],"
        ++ generics
        ++ documentationText (TypeDefinition.documentation d)
        ++ list_ascii_of_string (q "methods" ++ ":[")%string
        ++ methods
        ++ list_ascii_of_string "],"
        ++ list_ascii_of_string (q "initializers" ++ ":[")%string
        ++ initializers
        ++ list_ascii_of_string "],"
        ++ list_ascii_of_string (q "typeMethods" ++ ":[")%string
        ++ typeMethods
        ++ list_ascii_of_string "]").

(** The member [ClassReporter::reportBasics] adds for a superclass, lines
    186-187. *)
Definition superclassText (superclass : TypeDefinition.t) (package : Package.t) : stream :=
  list_ascii_of_string
    ("," ++ q "superclass" ++ ":{" ++ q "package" ++ ":" ++ q (c_str (Package.name package)) ++ ","
         ++ q "name" ++ ":" ++ q (c_str (utf8 (TypeDefinition.name superclass))) ++ "}")%string.

(** One round of the value loop of [EnumReporter::reportBasics], lines
    202-204. *)
Definition valueText (it : u32string * (Z * u32string)) : stream :=
  list_ascii_of_string "{"
  ++ documentationText it.2.2
  ++ list_ascii_of_string (q "value" ++ ":" ++ q (c_str (utf8 it.1)) ++ "}")%string.

(** The array [reportPackage] writes for one of its four lists. *)
Definition sectionText (h : Heap) (basics : ptr -> IO unit) (typeDefs : list ptr)
    : option stream :=
  joinComma <$> mapM (fun typeDef => textOf (report basics typeDef) h) typeDefs.

(** What [reportPackage] writes, lines 210-269. *)
Definition packageText (h : Heap) (package : ptr) : option stream :=
  p ← packages h !! package;
  valueTypes ← sectionText h (reportBasics utf8 JSONString)
                  (exportedOf TypeTypeValueType (Package.exportedTypes p));
  classes ← sectionText h (ClassReporter_reportBasics utf8 JSONString)
              (exportedOf TypeTypeClass (Package.exportedTypes p));
  enums ← sectionText h (EnumReporter_reportBasics utf8 JSONString)
            (exportedOf TypeTypeEnum (Package.exportedTypes p));
  protocols ← sectionText h (reportBasics utf8 JSONString)
                (exportedOf TypeTypeProtocol (Package.exportedTypes p));
  Some (list_ascii_of_string "{"
        ++ documentationText (Package.documentation p)
        ++ list_ascii_of_string (q "valueTypes" ++ ":[")%string
        ++ valueTypes
        ++ list_ascii_of_string "],"
        ++ list_ascii_of_string (q "classes" ++ ":[")%string
        ++ classes
        ++ list_ascii_of_string "],"
        ++ list_ascii_of_string (q "enums" ++ ": [")%string
        ++ enums
        ++ list_ascii_of_string "],"
        ++ list_ascii_of_string (q "protocols" ++ ":[")%string
        ++ protocols
        ++ list_ascii_of_string "]}").

(** No NUL byte in a text. *)
Definition clean (text : stream) : bool :=
  forallb (fun c => negb (Ascii.eqb c "000")) text.

(** The four kinds [reportPackage] reports. *)
Definition reported (type : Ty) : bool :=
  match PackageReporter.type type with
  | TypeTypeOther => false
  | _ => true
  end.

End Texts.

End ReporterText.

(** * A second sample package

    The sample package again with its exports in another order and one
    export that is neither a class, an enum, a protocol nor a value type. *)

Module SampleExports.
Import PackageReporter.

Definition shuffled : Package.t :=
  {| Package.name := "demo";
     Package.exportedTypes :=
       [ {| ExportedType.type := Sample.named TypeTypeProtocol 4 0 "Drawable" |};
         {| ExportedType.type := Sample.named TypeTypeOther 7 0 "Element" |};
         {| ExportedType.type := Sample.named TypeTypeEnum 3 0 "Colour" |};
         {| ExportedType.type := Sample.named TypeTypeClass 1 0 "Square" |} ];
     Package.documentation := Sample.u32 "Shapes." |}.

Definition declarations : Heap :=
  {| functions := functions Sample.declarations;
     typeDefinitions := typeDefinitions Sample.declarations;
     packages := {[ 0 := Sample.demo; 1 := shuffled ]} |}.

Definition world : World := {| heap := declarations; resolutions := []; stdout := [] |}.

(** Two names with the same generic variable index. *)
Definition clash : std_map u32string Ty :=
  [(Sample.u32 "A", Sample.generic 0 "A"); (Sample.u32 "B", Sample.generic 0 "B")].

End SampleExports.

(** * Facts about the call node *)

Module ASTMethodFacts.
Import ASTMethod.

(** ** Scenarios of the design document (section 8) *)

Example integer_add_is_intrinsic :
  fst (analyseMethodCall SampleCalls.analyser [SampleCalls.bare (Primitive Integer)] "add"
         (SampleCalls.expression Temporary (SampleCalls.bare (Primitive Integer)))
         (SampleCalls.bare (Primitive Integer)))
  = BuiltInMatched {| kind := Intrinsic BuiltInType.IntegerAdd;
                      receiverType := SampleCalls.bare (Primitive Integer);
                      argumentTypes := [SampleCalls.bare (Primitive Integer)] |}.
Proof. reflexivity. Qed.

Example inherited_method_is_dynamic :
  fst (analyseMethodCall SampleCalls.analyser [] "speak"
         (SampleCalls.expression (LocalVariable false) (SampleCalls.bare (Class SampleCalls.Dog)))
         (SampleCalls.bare (Class SampleCalls.Dog)))
  = DispatchResolved {| kind := DynamicDispatch
                                  (SampleCalls.method "speak" false (Class SampleCalls.Animal) []);
                        receiverType := SampleCalls.bare (Class SampleCalls.Dog);
                        argumentTypes := [] |}.
Proof. reflexivity. Qed.

Example increment_on_temporary :
  fst (analyseMethodCall SampleCalls.analyser [] "increment"
         (SampleCalls.expression Temporary (SampleCalls.bare (ValueType SampleCalls.Counter)))
         (SampleCalls.bare (ValueType SampleCalls.Counter)))
  = Failed MutationOnImmutableReceiver.
Proof. reflexivity. Qed.

Example describe_is_ambiguous :
  fst (analyseMethodCall SampleCalls.analyser [] "describe"
         (SampleCalls.expression (LocalVariable true)
            (SampleCalls.bare (ProtocolIntersection [SampleCalls.Comparable; SampleCalls.Printable])))
         (SampleCalls.bare (ProtocolIntersection [SampleCalls.Comparable; SampleCalls.Printable])))
  = Failed AmbiguousProtocolMethod.
Proof. reflexivity. Qed.

(** ** The built-in phase *)

Lemma entryMatches_spec name k args e :
  entryMatches name k args e = true
  <-> entryName e = name /\ receiverKind e = k /\ bareKind <$> args = Some <$> argumentKinds e.
Proof.
  unfold entryMatches. rewrite !andb_true_iff, !bool_decide_eq_true. tauto.
Qed.

(** In a table with unique rows the search finds the row that matches. *)
Lemma find_unique table name k args e :
  uniqueRows table -> e ∈ table -> entryMatches name k args e = true ->
  List.find (entryMatches name k args) table = Some e.
Proof.
  intros Hunique Hin Hmatch. destruct (List.find _ table) as [e'|] eqn:Hfind.
  - apply find_some in Hfind as [Hin' Hmatch']. apply list_elem_of_In in Hin'.
    apply entryMatches_spec in Hmatch as (Hn & Hk & Ha).
    apply entryMatches_spec in Hmatch' as (Hn' & Hk' & Ha').
    f_equal. apply Hunique; try congruence.
    rewrite Ha' in Ha. by apply (inj (fmap Some)) in Ha.
  - exfalso. rewrite (find_none _ _ Hfind e) in Hmatch; [done|]. by apply list_elem_of_In.
Qed.

Lemma uniqueRows_filter (P : TableEntry -> bool) table :
  uniqueRows table -> uniqueRows (List.filter P table).
Proof.
  intros Hunique e1 e2 Hin1 Hin2. apply Hunique.
  - apply list_elem_of_In. apply list_elem_of_In, filter_In in Hin1. tauto.
  - apply list_elem_of_In. apply list_elem_of_In, filter_In in Hin2. tauto.
Qed.

Lemma find_no_match table name k args :
  (forall e, e ∈ table -> entryMatches name k args e = false) ->
  List.find (entryMatches name k args) table = None.
Proof.
  intros Hnone. destruct (List.find _ table) as [e|] eqn:Hfind; [|done].
  apply find_some in Hfind as [Hin Hmatch]. apply list_elem_of_In in Hin.
  rewrite (Hnone e Hin) in Hmatch. discriminate.
Qed.

Lemma bareKind_spec type k :
  bareKind type = Some k
  <-> tag type = Primitive k /\ optional type = false /\ genericArguments type = [].
Proof.
  unfold bareKind. destruct (tag type), (optional type), (genericArguments type);
    split; try discriminate; try (intros (? & ? & ?); discriminate);
    [intros [= ->]; done | intros ([= ->] & _ & _); done].
Qed.

Lemma builtIn_no_match analyser args type name :
  (forall e k, e ∈ intrinsics analyser -> tag type = Primitive k ->
     entryMatches name k args e = false) ->
  builtIn analyser args type name = None.
Proof.
  intros Hnone. unfold builtIn.
  destruct (tag type) as [k| | | | |] eqn:Htag; try done.
  destruct (genericArguments type); [|done].
  rewrite find_no_match; [done|]. intros e He. apply (Hnone e k); [|done].
  destruct (optional type); [|done].
  apply list_elem_of_In. apply list_elem_of_In, filter_In in He. tauto.
Qed.

(** C1: a call on a bare primitive receiver whose name, receiver kind and
    argument kinds match a row of the intrinsic table (whose rows are unique)
    is resolved to the intrinsic of that row; the signature resolver is not
    invoked, and the outcome is the same whatever the method tables hold.
    When no row matches, the built-in phase gives no intrinsic and no error,
    and the outcome is that of the dispatch path, which starts by invoking
    the signature resolver. *)
Theorem builtIn_takes_precedence (analyser : SemanticAnalyser) (args : list TypeDescriptor)
    (name : string) (callee : ASTExpr) (type : TypeDescriptor) :
  (forall k e,
     uniqueRows (intrinsics analyser) ->
     bareKind type = Some k ->
     e ∈ intrinsics analyser ->
     entryMatches name k args e = true ->
     analyseMethodCall analyser args name callee type
     = (BuiltInMatched {| kind := Intrinsic (operator e); receiverType := type;
                          argumentTypes := args |}, [])
     /\ (ResolverInvoked ∉ snd (analyseMethodCall analyser args name callee type))
     /\ forall other, intrinsics other = intrinsics analyser ->
          analyseMethodCall other args name callee type
          = analyseMethodCall analyser args name callee type)
  /\ ((forall e k, e ∈ intrinsics analyser -> tag type = Primitive k ->
         entryMatches name k args e = false) ->
      builtIn analyser args type name = None
      /\ analyseMethodCall analyser args name callee type
         = analyseDispatch analyser args name callee type
      /\ exists rest, snd (analyseMethodCall analyser args name callee type) = ResolverInvoked :: rest).
Proof.
  split.
  - intros k e Hunique Hbare Hin Hmatch.
    apply bareKind_spec in Hbare as (Htag & Hopt & Hgen).
    assert (Hbuilt : forall other, intrinsics other = intrinsics analyser ->
              builtIn other args type name = Some (operator e)).
    { intros other Hsame. unfold builtIn. rewrite Htag, Hgen, Hopt, Hsame.
      by rewrite (find_unique _ _ _ _ e). }
    assert (Hrun : forall other, intrinsics other = intrinsics analyser ->
              analyseMethodCall other args name callee type
              = (BuiltInMatched {| kind := Intrinsic (operator e); receiverType := type;
                                   argumentTypes := args |}, [])).
    { intros other Hsame. unfold analyseMethodCall. by rewrite (Hbuilt other Hsame). }
    split; [by apply Hrun|]. split.
    + rewrite Hrun by done. apply not_elem_of_nil.
    + intros other Hsame. by rewrite !Hrun.
  - intros Hnone. pose proof (builtIn_no_match analyser args type name Hnone) as Hbuilt.
    split; [done|]. unfold analyseMethodCall. rewrite Hbuilt. split; [done|].
    unfold analyseDispatch. destruct (resolve analyser type name) as [rc|err]; [|by eexists].
    destruct (checkMutation callee (signature rc)); [|by eexists].
    destruct (verifyCall analyser (signature rc) type args); by eexists.
Qed.

(** C7: an intrinsic is matched only for a primitive receiver without
    generic arguments; on an optional receiver the only intrinsics matched
    are [IsNoValueLeft] and [IsNoValueRight], and a row of one of these two
    that matches is found; every other call on an optional receiver takes
    the dispatch path. *)
Theorem optional_receiver_matches_presence_only (analyser : SemanticAnalyser)
    (args : list TypeDescriptor) (name : string) (callee : ASTExpr) (type : TypeDescriptor) :
  (forall op, builtIn analyser args type name = Some op ->
     exists k, tag type = Primitive k /\ genericArguments type = [])
  /\ (forall op, optional type = true -> builtIn analyser args type name = Some op ->
        op = BuiltInType.IsNoValueLeft \/ op = BuiltInType.IsNoValueRight)
  /\ (forall k e, uniqueRows (intrinsics analyser) ->
        tag type = Primitive k -> genericArguments type = [] -> optional type = true ->
        e ∈ intrinsics analyser -> optionalPresence (operator e) = true ->
        entryMatches name k args e = true ->
        builtIn analyser args type name = Some (operator e))
  /\ (optional type = true ->
      (forall e k, e ∈ intrinsics analyser -> tag type = Primitive k ->
         entryMatches name k args e = true -> optionalPresence (operator e) = false) ->
      analyseMethodCall analyser args name callee type
      = analyseDispatch analyser args name callee type).
Proof.
  split; [|split; [|split]].
  - intros op. unfold builtIn. destruct (tag type) as [k| | | | |]; try done.
    destruct (genericArguments type); [|done]. eauto.
  - intros op Hopt. unfold builtIn. rewrite Hopt.
    destruct (tag type) as [k| | | | |]; try done.
    destruct (genericArguments type); [|done].
    destruct (List.find _ _) as [e|] eqn:Hfind; [|done]. intros [= <-].
    apply find_some in Hfind as [Hin _]. apply filter_In in Hin as [_ Hpresence].
    destruct (operator e); try discriminate; auto.
  - intros k e Hunique Htag Hgen Hopt Hin Hpresence Hmatch.
    unfold builtIn. rewrite Htag, Hgen, Hopt.
    rewrite (find_unique _ _ _ _ e); [done|by apply uniqueRows_filter| |done].
    apply list_elem_of_In, filter_In. split; [by apply list_elem_of_In|done].
  - intros Hopt Hothers. unfold analyseMethodCall.
    assert (builtIn analyser args type name = None) as ->; [|done].
    unfold builtIn. rewrite Hopt. destruct (tag type) as [k| | | | |] eqn:Htag; try done.
    destruct (genericArguments type); [|done].
    rewrite find_no_match; [done|]. intros e He.
    apply list_elem_of_In, filter_In in He as [He Hpresence]. apply list_elem_of_In in He.
    destruct (entryMatches name k args e) eqn:Hmatch; [|done].
    rewrite (Hothers e k He eq_refl Hmatch) in Hpresence. discriminate.
Qed.

(** ** Protocol intersections *)

Lemma declares_spec analyser type name :
  declares analyser type name = true <-> is_Some (methodTable analyser type !! name).
Proof. unfold declares. apply bool_decide_eq_true. Qed.

Lemma filter_none (P : nat -> bool) (members : list nat) :
  (forall x, x ∈ members -> P x = false) -> List.filter P members = [].
Proof.
  induction members as [|m members IH]; intros Hnone; [done|]. simpl.
  rewrite Hnone by (by left). apply IH. intros x Hx. apply Hnone. by right.
Qed.

(** One declaring member among distinct members is all the search keeps. *)
Lemma filter_only (P : nat -> bool) (members : list nat) p :
  NoDup members -> p ∈ members -> P p = true ->
  (forall p', p' ∈ members -> P p' = true -> p' = p) ->
  List.filter P members = [p].
Proof.
  induction members as [|m members IH]; intros Hnd Hin Hp Honly.
  - by apply elem_of_nil in Hin.
  - apply NoDup_cons in Hnd as [Hm Hnd]. simpl.
    destruct (decide (m = p)) as [->|Hne].
    + rewrite Hp. f_equal. apply filter_none. intros x Hx.
      destruct (P x) eqn:HPx; [|done]. exfalso.
      rewrite (Honly x) in Hx; [done|by right|done].
    + apply elem_of_cons in Hin as [->|Hin]; [done|].
      destruct (P m) eqn:HPm.
      * exfalso. apply Hne, Honly; [by left|done].
      * apply IH; try done. intros p' Hp'. apply Honly. by right.
Qed.

(** Two distinct members that pass leave at least two in the result. *)
Lemma filter_two (P : nat -> bool) (members : list nat) p1 p2 :
  p1 ∈ members -> p2 ∈ members -> p1 <> p2 -> P p1 = true -> P p2 = true ->
  exists a b rest, List.filter P members = a :: b :: rest.
Proof.
  intros H1 H2 Hne HP1 HP2.
  assert (Hin1 : In p1 (List.filter P members)).
  { apply filter_In. split; [by apply list_elem_of_In|done]. }
  assert (Hin2 : In p2 (List.filter P members)).
  { apply filter_In. split; [by apply list_elem_of_In|done]. }
  destruct (List.filter P members) as [|a [|b rest]].
  - destruct Hin1.
  - exfalso. destruct Hin1 as [<-|[]], Hin2 as [<-|[]]. done.
  - eauto.
Qed.

Lemma builtIn_not_primitive analyser args type name :
  (forall k, tag type <> Primitive k) -> builtIn analyser args type name = None.
Proof.
  intros Htag. unfold builtIn. destruct (tag type) as [k| | | | |]; try done.
  by destruct (Htag k).
Qed.

(** C2: on a protocol-intersection receiver, with the members distinct, a
    name declared by exactly one member resolves to a protocol dispatch
    tagged with that member; a name declared by two different members is the
    error [AmbiguousProtocolMethod], whatever their signatures; a name no
    member declares is [MethodNotFound].  No intrinsic is tried for such a
    receiver. *)
Theorem intersection_resolution (analyser : SemanticAnalyser) (args : list TypeDescriptor)
    (name : string) (callee : ASTExpr) (type : TypeDescriptor) (members : list nat) :
  tag type = ProtocolIntersection members ->
  (forall p sig,
     NoDup members -> p ∈ members ->
     methodTable analyser (Protocol p) !! name = Some sig ->
     (forall p', p' ∈ members -> declares analyser (Protocol p') name = true -> p' = p) ->
     resolve analyser type name = Ok {| signature := sig; dispatch := ViaProtocol p |}
     /\ callKind {| signature := sig; dispatch := ViaProtocol p |} = ProtocolDispatch sig p)
  /\ (forall p1 p2,
        p1 ∈ members -> p2 ∈ members -> p1 <> p2 ->
        declares analyser (Protocol p1) name = true ->
        declares analyser (Protocol p2) name = true ->
        resolve analyser type name = Err AmbiguousProtocolMethod
        /\ fst (analyseMethodCall analyser args name callee type) = Failed AmbiguousProtocolMethod)
  /\ ((forall p, p ∈ members -> declares analyser (Protocol p) name = false) ->
      resolve analyser type name = Err MethodNotFound
      /\ fst (analyseMethodCall analyser args name callee type) = Failed MethodNotFound)
  /\ analyseMethodCall analyser args name callee type
     = analyseDispatch analyser args name callee type.
Proof.
  intros Htag.
  assert (Hdispatch : analyseMethodCall analyser args name callee type
                      = analyseDispatch analyser args name callee type).
  { unfold analyseMethodCall. rewrite builtIn_not_primitive; [done|].
    intros k. by rewrite Htag. }
  assert (Hresolve : resolve analyser type name = analyseMultiProtocolCall analyser name members).
  { unfold resolve. by rewrite Htag. }
  split; [|split; [|split]]; [| | |done].
  - intros p sig Hnd Hin Hsig Honly. split; [|done].
    rewrite Hresolve. unfold analyseMultiProtocolCall.
    rewrite (filter_only _ members p); try done.
    + by rewrite Hsig.
    + apply declares_spec. by rewrite Hsig.
  - intros p1 p2 H1 H2 Hne Hd1 Hd2.
    assert (resolve analyser type name = Err AmbiguousProtocolMethod) as Hr.
    { rewrite Hresolve. unfold analyseMultiProtocolCall.
      destruct (filter_two (fun p => declares analyser (Protocol p) name) members p1 p2)
        as (a & b & rest & ->); done. }
    split; [done|]. rewrite Hdispatch. unfold analyseDispatch. by rewrite Hr.
  - intros Hnone.
    assert (resolve analyser type name = Err MethodNotFound) as Hr.
    { rewrite Hresolve. unfold analyseMultiProtocolCall.
      destruct (List.filter _ members) as [|p rest] eqn:Hfilter; [done|].
      assert (In p (List.filter (fun p => declares analyser (Protocol p) name) members)) as Hp
        by (rewrite Hfilter; by left).
      apply filter_In in Hp as [Hp Hd]. rewrite Hnone in Hd; [done|by apply list_elem_of_In]. }
    split; [done|]. rewrite Hdispatch. unfold analyseDispatch. by rewrite Hr.
Qed.

(** ** The mutation check *)

Lemma searchChain_withVerifyCall analyser verify name chain :
  searchChain (withVerifyCall analyser verify) name chain = searchChain analyser name chain.
Proof.
  induction chain as [|x chain IH]; [done|]. simpl.
  destruct (methodTable analyser (Class x) !! name); [done|apply IH].
Qed.

Lemma resolve_withVerifyCall analyser verify type name :
  resolve (withVerifyCall analyser verify) type name = resolve analyser type name.
Proof.
  unfold resolve. destruct (tag type) as [k|c| | |p|members]; try done.
  by rewrite searchChain_withVerifyCall.
Qed.

(** C3: when the resolver has found a method whose signature is mutating and
    the receiver expression is not an addressable, declared-mutable location,
    the call fails with [MutationOnImmutableReceiver]; the checks that follow
    a name match are not run, so the outcome is the same whether or not they
    would pass.  For a signature that is not mutating the check succeeds for
    every receiver expression and the outcome does not depend on it. *)
Theorem mutation_is_checked (analyser : SemanticAnalyser) (args : list TypeDescriptor)
    (name : string) (callee : ASTExpr) (type : TypeDescriptor) (rc : ResolvedCall) :
  builtIn analyser args type name = None ->
  resolve analyser type name = Ok rc ->
  (mutating (signature rc) = true -> addressableMutable (storage callee) = false ->
     checkMutation callee (signature rc) = Err MutationOnImmutableReceiver
     /\ forall verify,
          analyseMethodCall (withVerifyCall analyser verify) args name callee type
          = (Failed MutationOnImmutableReceiver, [ResolverInvoked; MutationChecked]))
  /\ (mutating (signature rc) = false ->
      forall callee',
        checkMutation callee' (signature rc) = Ok tt
        /\ analyseMethodCall analyser args name callee' type
           = analyseMethodCall analyser args name callee type).
Proof.
  intros Hbuilt Hresolve. split.
  - intros Hmutating Hstorage.
    assert (Hcheck : checkMutation callee (signature rc) = Err MutationOnImmutableReceiver).
    { unfold checkMutation. by rewrite Hmutating, Hstorage. }
    split; [done|]. intros verify. unfold analyseMethodCall.
    assert (builtIn (withVerifyCall analyser verify) args type name = None) as -> by done.
    unfold analyseDispatch. by rewrite resolve_withVerifyCall, Hresolve, Hcheck.
  - intros Hmutating callee'.
    assert (Hcheck : forall c, checkMutation c (signature rc) = Ok tt).
    { intros c. unfold checkMutation. by rewrite Hmutating. }
    split; [done|]. unfold analyseMethodCall. rewrite Hbuilt. unfold analyseDispatch.
    by rewrite Hresolve, !Hcheck.
Qed.

(** ** The properties on the sample calls *)

Lemma sample_table_unique : uniqueRows (intrinsics SampleCalls.analyser).
Proof.
  intros e1 e2 H1 H2 Hname _ _. simpl in H1, H2.
  apply elem_of_cons in H1 as [->|H1]; apply elem_of_cons in H2 as [->|H2]; try done.
  - apply list_elem_of_singleton in H2 as ->. discriminate.
  - apply list_elem_of_singleton in H1 as ->. discriminate.
  - apply list_elem_of_singleton in H1 as ->. by apply list_elem_of_singleton in H2 as ->.
Qed.

Lemma sample_table_rows (P : TableEntry -> Prop) :
  P SampleCalls.integerAdd -> P SampleCalls.integerAbsent ->
  forall e, e ∈ intrinsics SampleCalls.analyser -> P e.
Proof.
  intros Hadd Habsent e He. simpl in He.
  apply elem_of_cons in He as [->|He]; [done|]. by apply list_elem_of_singleton in He as ->.
Qed.

(** [add] on an integer with an integer argument is the intrinsic although
    the integer type declares a method [add]; [text] is no intrinsic and is
    dispatched. *)
Lemma builtIn_takes_precedence_witness :
  analyseMethodCall SampleCalls.analyser [SampleCalls.bare (Primitive Integer)] "add"
    (SampleCalls.expression Temporary (SampleCalls.bare (Primitive Integer)))
    (SampleCalls.bare (Primitive Integer))
  = (BuiltInMatched {| kind := Intrinsic BuiltInType.IntegerAdd;
                       receiverType := SampleCalls.bare (Primitive Integer);
                       argumentTypes := [SampleCalls.bare (Primitive Integer)] |}, [])
  /\ analyseMethodCall SampleCalls.analyser [] "text"
       (SampleCalls.expression Temporary (SampleCalls.bare (Primitive Integer)))
       (SampleCalls.bare (Primitive Integer))
     = analyseDispatch SampleCalls.analyser [] "text"
         (SampleCalls.expression Temporary (SampleCalls.bare (Primitive Integer)))
         (SampleCalls.bare (Primitive Integer)).
Proof.
  split.
  - destruct (proj1 (builtIn_takes_precedence SampleCalls.analyser
               [SampleCalls.bare (Primitive Integer)] "add"
               (SampleCalls.expression Temporary (SampleCalls.bare (Primitive Integer)))
               (SampleCalls.bare (Primitive Integer))) Integer SampleCalls.integerAdd)
      as (Hrun & _ & _).
    + apply sample_table_unique.
    + reflexivity.
    + by left.
    + reflexivity.
    + exact Hrun.
  - destruct (proj2 (builtIn_takes_precedence SampleCalls.analyser [] "text"
               (SampleCalls.expression Temporary (SampleCalls.bare (Primitive Integer)))
               (SampleCalls.bare (Primitive Integer)))) as (_ & Hrun & _).
    + intros e k He [= <-]. revert e He. by apply sample_table_rows.
    + exact Hrun.
Defined.

(** On an optional integer [absent] is matched as [IsNoValueLeft], and [add]
    is dispatched. *)
Lemma optional_receiver_matches_presence_only_witness :
  builtIn SampleCalls.analyser [] (SampleCalls.boxed (Primitive Integer)) "absent"
  = Some BuiltInType.IsNoValueLeft
  /\ analyseMethodCall SampleCalls.analyser [SampleCalls.bare (Primitive Integer)] "add"
       (SampleCalls.expression Temporary (SampleCalls.boxed (Primitive Integer)))
       (SampleCalls.boxed (Primitive Integer))
     = analyseDispatch SampleCalls.analyser [SampleCalls.bare (Primitive Integer)] "add"
         (SampleCalls.expression Temporary (SampleCalls.boxed (Primitive Integer)))
         (SampleCalls.boxed (Primitive Integer)).
Proof.
  split.
  - apply (proj1 (proj2 (proj2 (optional_receiver_matches_presence_only SampleCalls.analyser []
             "absent" (SampleCalls.expression Temporary (SampleCalls.boxed (Primitive Integer)))
             (SampleCalls.boxed (Primitive Integer))))) Integer SampleCalls.integerAbsent).
    + apply sample_table_unique.
    + reflexivity.
    + reflexivity.
    + reflexivity.
    + right. by left.
    + reflexivity.
    + reflexivity.
  - apply (proj2 (proj2 (proj2 (optional_receiver_matches_presence_only SampleCalls.analyser
             [SampleCalls.bare (Primitive Integer)] "add"
             (SampleCalls.expression Temporary (SampleCalls.boxed (Primitive Integer)))
             (SampleCalls.boxed (Primitive Integer)))))).
    + reflexivity.
    + intros e k He [= <-]. revert e He.
      apply (sample_table_rows (fun e => _ -> _)); intros Hmatch;
        vm_compute in Hmatch |- *; congruence.
Defined.

(** On the intersection of [Comparable] and [Printable]: [compare] belongs
    to [Comparable] alone, [describe] to both, [missing] to neither. *)
Lemma intersection_resolution_witness :
  let type := SampleCalls.bare (ProtocolIntersection [SampleCalls.Comparable; SampleCalls.Printable]) in
  resolve SampleCalls.analyser type "compare"
  = Ok {| signature := SampleCalls.method "compare" false (Protocol 0) [SampleCalls.bare (Protocol 0)];
          dispatch := ViaProtocol SampleCalls.Comparable |}
  /\ resolve SampleCalls.analyser type "describe" = Err AmbiguousProtocolMethod
  /\ resolve SampleCalls.analyser type "missing" = Err MethodNotFound.
Proof.
  intros type.
  pose (callee := SampleCalls.expression (LocalVariable true) type).
  split; [|split].
  - destruct (proj1 (intersection_resolution SampleCalls.analyser [] "compare" callee type
               [SampleCalls.Comparable; SampleCalls.Printable] eq_refl)
               SampleCalls.Comparable
               (SampleCalls.method "compare" false (Protocol 0) [SampleCalls.bare (Protocol 0)]))
      as (Hrun & _).
    + apply (bool_decide_unpack _). by vm_compute.
    + by left.
    + reflexivity.
    + intros p' Hp' Hdeclares. apply elem_of_cons in Hp' as [->|Hp']; [done|].
      apply list_elem_of_singleton in Hp' as ->. discriminate.
    + exact Hrun.
  - destruct (proj1 (proj2 (intersection_resolution SampleCalls.analyser [] "describe" callee type
               [SampleCalls.Comparable; SampleCalls.Printable] eq_refl))
               SampleCalls.Comparable SampleCalls.Printable) as (Hrun & _).
    + by left.
    + right. by left.
    + discriminate.
    + reflexivity.
    + reflexivity.
    + exact Hrun.
  - destruct (proj1 (proj2 (proj2 (intersection_resolution SampleCalls.analyser [] "missing"
               callee type [SampleCalls.Comparable; SampleCalls.Printable] eq_refl))))
      as (Hrun & _).
    + intros p Hp. apply elem_of_cons in Hp as [->|Hp]; [done|].
      by apply list_elem_of_singleton in Hp as ->.
    + exact Hrun.
Defined.

(** [increment] is mutating and fails on a temporary; [value] is not and
    gives the same outcome on a temporary as on a mutable variable. *)
Lemma mutation_is_checked_witness :
  let type := SampleCalls.bare (ValueType SampleCalls.Counter) in
  analyseMethodCall SampleCalls.analyser [] "increment" (SampleCalls.expression Temporary type) type
  = (Failed MutationOnImmutableReceiver, [ResolverInvoked; MutationChecked])
  /\ analyseMethodCall SampleCalls.analyser [] "value"
       (SampleCalls.expression (LocalVariable true) type) type
     = analyseMethodCall SampleCalls.analyser [] "value" (SampleCalls.expression Temporary type) type.
Proof.
  intros type. split.
  - destruct (proj1 (mutation_is_checked SampleCalls.analyser [] "increment"
               (SampleCalls.expression Temporary type) type
               {| signature := SampleCalls.method "increment" true (ValueType 0) [];
                  dispatch := Static |} eq_refl eq_refl) eq_refl eq_refl) as (_ & Hrun).
    exact (Hrun SampleCalls.arity).
  - destruct (proj2 (mutation_is_checked SampleCalls.analyser [] "value"
               (SampleCalls.expression Temporary type) type
               {| signature := SampleCalls.method "value" false (ValueType 0) [];
                  dispatch := Static |} eq_refl eq_refl) eq_refl
               (SampleCalls.expression (LocalVariable true) type)) as (_ & Hrun).
    exact Hrun.
Defined.

(** ** The operator catalog *)

(** C6, as amended: the enumeration of the header is closed and has 35
    variants.  All of them fall into the categories of the document except
    [None], which names no operator, and [IntegerToDouble], which is a
    conversion.  The variants carry no payload; the 29 whose name starts with
    a kind fix that kind, and [None], [Equal], [Store], [Load],
    [IsNoValueLeft] and [IsNoValueRight] name no kind. *)
Theorem catalog_is_closed :
  NoDup BuiltInType.variants
  /\ length BuiltInType.variants = 35
  /\ (forall op : BuiltInType.t, op ∈ BuiltInType.variants)
  /\ (forall op, category op = None
                 <-> op = BuiltInType.None \/ op = BuiltInType.IntegerToDouble)
  /\ (forall op, namedKind op = None
                 <-> op ∈ [BuiltInType.None; BuiltInType.Equal; BuiltInType.Store;
                           BuiltInType.Load; BuiltInType.IsNoValueLeft;
                           BuiltInType.IsNoValueRight])
  /\ length (List.filter (fun op => bool_decide (is_Some (namedKind op))) BuiltInType.variants) = 29.
Proof.
  split; [apply (bool_decide_unpack _); by vm_compute|]. split; [done|].
  split; [intros op; destruct op; apply (bool_decide_unpack _); by vm_compute|].
  split; [|split; [|done]].
  - intros op. destruct op; simpl; split; try discriminate; auto; intros [?|?]; discriminate.
  - intros op. destruct op; simpl; split; try discriminate; try done;
      first [ intros _; apply (bool_decide_unpack _); by vm_compute
            | intros Hin; exfalso; revert Hin; apply (bool_decide_unpack _); by vm_compute ].
Qed.

(** The catalog as the document describes it does not hold of the header:
    [IntegerToDouble] is in none of the categories. *)
Lemma catalog_not_as_documented : ~ catalog_as_documented.
Proof.
  intros Hall. destruct (Hall BuiltInType.IntegerToDouble) as [[c Hc] _]. discriminate.
Qed.

End ASTMethodFacts.

(** * Facts about the package reporter *)

Module PackageReporterFacts.
Import PackageReporter.

Local Open Scope list_scope.

Lemma emit_nil w : emit w [] = w.
Proof. destruct w; unfold emit; simpl. by rewrite app_nil_r. Qed.

Lemma emit_emit w s t : emit (emit w s) t = emit w (s ++ t).
Proof. unfold emit; simpl. by rewrite app_assoc. Qed.

Lemma heap_emit w t : heap (emit w t) = heap w.
Proof. done. Qed.

(** ** Proof rules for [ReadOnly] *)

Lemma ReadOnly_intro {A} (m : IO A) (f : Heap -> option (A * stream)) :
  (forall w, m w = (fun r => (r.1, emit w r.2)) <$> f (heap w)) -> ReadOnly m.
Proof.
  intros Hm w. unfold denote. rewrite (Hm {| heap := heap w; resolutions := []; stdout := [] |}).
  rewrite Hm. simpl. destruct (f (heap w)) as [[a t]|]; done.
Qed.

Lemma ReadOnly_ret {A} (a : A) : ReadOnly (mret a : IO A).
Proof.
  apply (ReadOnly_intro _ (fun _ => Some (a, []))). intros w. simpl.
  by rewrite emit_nil.
Qed.

Lemma ReadOnly_undefined {A} : ReadOnly (undefined : IO A).
Proof. by apply (ReadOnly_intro _ (fun _ => None)). Qed.

Lemma ReadOnly_write text : ReadOnly (write text).
Proof. by apply (ReadOnly_intro _ (fun _ => Some (tt, text))). Qed.

Lemma ReadOnly_printf text : ReadOnly (printf text).
Proof. apply ReadOnly_write. Qed.

Lemma ReadOnly_putc c : ReadOnly (putc c).
Proof. apply ReadOnly_write. Qed.

Lemma ReadOnly_read {A} (table : Heap -> gmap ptr A) p : ReadOnly (read table p).
Proof.
  apply (ReadOnly_intro _ (fun h => (fun a => (a, [])) <$> table h !! p)). intros w.
  unfold read. destruct (table (heap w) !! p); simpl; [|done]. by rewrite emit_nil.
Qed.

Lemma ReadOnly_bind {A B} (m : IO A) (k : A -> IO B) :
  ReadOnly m -> (forall a, ReadOnly (k a)) -> ReadOnly (m ≫= k).
Proof.
  intros Hm Hk.
  apply (ReadOnly_intro _ (fun h =>
    match denote m h with
    | Some (a, s) =>
        match denote (k a) h with
        | Some (b, t) => Some (b, s ++ t)
        | None => None
        end
    | None => None
    end)).
  intros w. unfold mbind, IO_bind. rewrite (Hm w).
  destruct (denote m (heap w)) as [[a s]|]; simpl; [|done].
  rewrite (Hk a (emit w s)), heap_emit.
  destruct (denote (k a) (heap w)) as [[b t]|]; simpl; [|done].
  by rewrite emit_emit.
Qed.

Lemma ReadOnly_for_each {A S} (xs : list A) (body : A -> S -> IO S) (s : S) :
  (forall x s', ReadOnly (body x s')) -> ReadOnly (for_each xs body s).
Proof.
  intros Hbody. revert s. induction xs as [|x xs IH]; intros s; simpl.
  - apply ReadOnly_ret.
  - apply ReadOnly_bind; [apply Hbody | intros s'; apply IH].
Qed.

Lemma ReadOnly_CommaPrinter_print printer : ReadOnly (CommaPrinter_print printer).
Proof.
  unfold CommaPrinter_print. apply ReadOnly_bind.
  - destruct (printedFirst_ printer); [apply ReadOnly_putc | apply ReadOnly_ret].
  - intros _. apply ReadOnly_ret.
Qed.

Create HintDb readonly.

#[local] Hint Resolve ReadOnly_ret ReadOnly_undefined ReadOnly_write ReadOnly_printf
  ReadOnly_putc ReadOnly_read ReadOnly_CommaPrinter_print : readonly.

(** Solves [ReadOnly] goals by following the structure of the computation. *)
Ltac read_only :=
  repeat first
    [ progress (eauto 1 with readonly)
    | apply ReadOnly_bind; [|intros ?]
    | apply ReadOnly_for_each; intros ? ?
    | match goal with
      | |- ReadOnly (match ?x with _ => _ end) => destruct x
      | |- ReadOnly (if ?x then _ else _) => destruct x
      end ].

(** ** The comma printer *)

Lemma CommaPrinter_print_fresh w :
  CommaPrinter_print CommaPrinter_default w = Some ({| printedFirst_ := true |}, w).
Proof. done. Qed.

Lemma CommaPrinter_print_used w :
  CommaPrinter_print {| printedFirst_ := true |} w
  = Some ({| printedFirst_ := true |}, emit w [","%char]).
Proof. done. Qed.

(** Once the first item is out, every further item is preceded by a comma. *)
Lemma for_each_used {A} (xs : list A) (body : A -> IO unit) (text : A -> stream) w :
  (forall x w', x ∈ xs -> heap w' = heap w -> body x w' = Some (tt, emit w' (text x))) ->
  for_each xs (fun x printer => printer ← CommaPrinter_print printer; _ ← body x; mret printer)
    {| printedFirst_ := true |} w
  = Some ({| printedFirst_ := true |}, emit w (concat ((fun x => ","%char :: text x) <$> xs))).
Proof.
  revert w. induction xs as [|x xs IH]; intros w Hbody; simpl.
  - by rewrite emit_nil.
  - unfold mbind at 1, IO_bind. unfold mbind at 1, IO_bind. rewrite CommaPrinter_print_used.
    unfold mbind at 1, IO_bind. rewrite Hbody; [|left|done]. simpl.
    rewrite IH.
    + by rewrite !emit_emit.
    + intros y w' Hy Hw'. apply Hbody; [by right|done].
Qed.

Lemma joinComma_cons t ts :
  joinComma (t :: ts) = t ++ concat ((fun t' => ","%char :: t') <$> ts).
Proof.
  revert t. induction ts as [|t' ts IH]; intros t; simpl.
  - by rewrite app_nil_r.
  - f_equal. f_equal. apply IH.
Qed.

Lemma for_each_fresh {A} (xs : list A) (body : A -> IO unit) (text : A -> stream) w :
  (forall x w', x ∈ xs -> heap w' = heap w -> body x w' = Some (tt, emit w' (text x))) ->
  for_each xs (fun x printer => printer ← CommaPrinter_print printer; _ ← body x; mret printer)
    CommaPrinter_default w
  = Some ({| printedFirst_ := bool_decide (xs <> []) |}, emit w (joinComma (text <$> xs))).
Proof.
  destruct xs as [|x xs]; intros Hbody.
  - simpl. by rewrite emit_nil.
  - rewrite fmap_cons, joinComma_cons, <- list_fmap_compose. cbn [for_each].
    unfold mbind at 1, IO_bind. unfold mbind at 1, IO_bind. rewrite CommaPrinter_print_fresh.
    unfold mbind at 1, IO_bind. rewrite Hbody; [|left|done]. simpl.
    rewrite (for_each_used xs body text).
    + by rewrite emit_emit.
    + intros y w' Hy Hw'. apply Hbody; [by right|done].
Qed.

(** [n] calls of [print] on a fresh printer write [n - 1] commas. *)
Lemma print_commas {A} (xs : list A) w :
  for_each xs (fun _ printer => CommaPrinter_print printer) CommaPrinter_default w
  = Some ({| printedFirst_ := bool_decide (xs <> []) |},
          emit w (replicate (length xs - 1) ","%char)).
Proof.
  destruct xs as [|x xs]; simpl.
  - by rewrite emit_nil.
  - unfold mbind, IO_bind. rewrite CommaPrinter_print_fresh, Nat.sub_0_r.
    clear x. revert w. induction xs as [|x xs IH]; intros w; simpl.
    + by rewrite emit_nil.
    + unfold mbind, IO_bind. rewrite CommaPrinter_print_used, IH, emit_emit. done.
Qed.

(** The same for bodies that read the heap and may be undefined. *)
Lemma ReadOnly_run {A} (m : IO A) w :
  ReadOnly m -> m w = (fun r => (r.1, emit w r.2)) <$> denote m (heap w).
Proof. intros Hm. apply Hm. Qed.

Lemma for_each_used_text {A} (xs : list A) (body : A -> IO unit) w :
  (forall x, ReadOnly (body x)) ->
  for_each xs (fun x printer => printer ← CommaPrinter_print printer; _ ← body x; mret printer)
    {| printedFirst_ := true |} w
  = (fun ts => ({| printedFirst_ := true |}, emit w (concat ((fun t => ","%char :: t) <$> ts))))
    <$> mapM (fun x => textOf (body x) (heap w)) xs.
Proof.
  intros Hbody. unfold textOf. revert w. induction xs as [|x xs IH]; intros w; simpl.
  - by rewrite emit_nil.
  - unfold mbind at 1, IO_bind. unfold mbind at 1, IO_bind. rewrite CommaPrinter_print_used.
    unfold mbind at 1, IO_bind. rewrite (ReadOnly_run (body x)), heap_emit by done.
    destruct (denote (body x) (heap w)) as [[[] t]|]; simpl; [|done].
    rewrite IH, !heap_emit.
    destruct (mapM _ xs) as [ts|]; simpl; [|done].
    by rewrite !emit_emit.
Qed.

Lemma for_each_fresh_text {A} (xs : list A) (body : A -> IO unit) w :
  (forall x, ReadOnly (body x)) ->
  for_each xs (fun x printer => printer ← CommaPrinter_print printer; _ ← body x; mret printer)
    CommaPrinter_default w
  = (fun ts => ({| printedFirst_ := bool_decide (xs <> []) |}, emit w (joinComma ts)))
    <$> mapM (fun x => textOf (body x) (heap w)) xs.
Proof.
  intros Hbody. destruct xs as [|x xs].
  - simpl. by rewrite emit_nil.
  - unfold textOf. cbn [for_each mapM].
    unfold mbind at 1, IO_bind. unfold mbind at 1, IO_bind. rewrite CommaPrinter_print_fresh.
    unfold mbind at 1, IO_bind. rewrite (ReadOnly_run (body x)) by done.
    destruct (denote (body x) (heap w)) as [[[] t]|]; simpl; [|done].
    rewrite for_each_used_text, heap_emit by done. unfold textOf.
    destruct (mapM _ xs) as [ts|]; simpl; [|done].
    change (match ts with [] => t | _ :: _ => t ++ ","%char :: joinComma ts end)
      with (joinComma (t :: ts)).
    by rewrite emit_emit, joinComma_cons.
Qed.

Section ReporterFacts.

Context (utf8 : u32string -> string) (JSONString : string -> stream).

Lemma ReadOnly_printJSONStringToFile text : ReadOnly (printJSONStringToFile JSONString text).
Proof. apply ReadOnly_write. Qed.

#[local] Hint Resolve ReadOnly_printJSONStringToFile : readonly.

Lemma ReadOnly_reportDocumentation documentation :
  ReadOnly (reportDocumentation utf8 JSONString documentation).
Proof. unfold reportDocumentation. read_only. Qed.

Lemma ReadOnly_reportType type tc : ReadOnly (reportType type tc).
Proof. unfold reportType. read_only. Qed.

#[local] Hint Resolve ReadOnly_reportDocumentation ReadOnly_reportType : readonly.

Lemma ReadOnly_reportGenericArguments map constraints superCount tc :
  ReadOnly (reportGenericArguments utf8 JSONString map constraints superCount tc).
Proof. unfold reportGenericArguments. read_only. Qed.

#[local] Hint Resolve ReadOnly_reportGenericArguments : readonly.

Lemma ReadOnly_reportFunction function returnKind tc :
  ReadOnly (reportFunction utf8 JSONString function returnKind tc).
Proof. unfold reportFunction. read_only. Qed.

#[local] Hint Resolve ReadOnly_reportFunction : readonly.

Lemma ReadOnly_printFunctions typeDef_ functions :
  ReadOnly (printFunctions utf8 JSONString typeDef_ functions).
Proof. unfold printFunctions. read_only. Qed.

Lemma ReadOnly_initializerKind initializer : ReadOnly (initializerKind initializer).
Proof. unfold initializerKind. read_only. Qed.

#[local] Hint Resolve ReadOnly_printFunctions ReadOnly_initializerKind : readonly.

Lemma ReadOnly_reportBasics typeDef_ : ReadOnly (reportBasics utf8 JSONString typeDef_).
Proof. unfold reportBasics. read_only. Qed.

#[local] Hint Resolve ReadOnly_reportBasics : readonly.

Lemma ReadOnly_ClassReporter_reportBasics typeDef_ :
  ReadOnly (ClassReporter_reportBasics utf8 JSONString typeDef_).
Proof. unfold ClassReporter_reportBasics. read_only. Qed.

Lemma ReadOnly_EnumReporter_reportBasics typeDef_ :
  ReadOnly (EnumReporter_reportBasics utf8 JSONString typeDef_).
Proof. unfold EnumReporter_reportBasics. read_only. Qed.

Lemma ReadOnly_report basics typeDef_ :
  (forall p, ReadOnly (basics p)) -> ReadOnly (report basics typeDef_).
Proof. intros Hbasics. unfold report. read_only. Qed.

Lemma ReadOnly_reportAll basics typeDefs :
  (forall p, ReadOnly (basics p)) -> ReadOnly (reportAll basics typeDefs).
Proof.
  intros Hbasics. unfold reportAll. read_only.
Qed.

Lemma ReadOnly_reportPackage package : ReadOnly (reportPackage utf8 JSONString package).
Proof.
  unfold reportPackage. read_only.
Qed.

(** ** The generic arguments *)

Lemma NoDup_fmap_elem_inj {A B} (f : A -> B) (l : list A) x y :
  NoDup (f <$> l) -> x ∈ l -> y ∈ l -> f x = f y -> x = y.
Proof.
  induction l as [|a l IH]; intros Hnd Hx Hy Hf.
  - by apply elem_of_nil in Hx.
  - rewrite fmap_cons in Hnd. apply NoDup_cons in Hnd as [Ha Hnd].
    apply elem_of_cons in Hx as [->|Hx]; apply elem_of_cons in Hy as [->|Hy].
    + done.
    + exfalso. apply Ha. rewrite Hf. by apply list_elem_of_fmap_2.
    + exfalso. apply Ha. rewrite <- Hf. by apply list_elem_of_fmap_2.
    + by apply IH.
Qed.

Lemma fillNames_length map superCount gans gans' :
  fillNames map superCount gans = Some gans' -> length gans' = length gans.
Proof.
  revert gans. induction map as [|it map IH]; intros gans Hfill; simpl in Hfill.
  - by inversion Hfill.
  - case_bool_decide; [|done]. apply IH in Hfill. by rewrite length_insert in Hfill.
Qed.

(** The first loop stays in bounds exactly when every slot is below the size
    of the vector. *)
Lemma fillNames_is_Some map superCount gans :
  is_Some (fillNames map superCount gans)
  <-> Forall (fun it => slot superCount it.2 < length gans) map.
Proof.
  revert gans. induction map as [|it map IH]; intros gans; simpl.
  - split; [constructor | eauto].
  - rewrite Forall_cons. case_bool_decide as Hslot.
    + rewrite IH, length_insert. tauto.
    + split; [by intros [? ?] | tauto].
Qed.

Lemma fillNames_lookup_other map superCount gans gans' i :
  fillNames map superCount gans = Some gans' ->
  i ∉ slot superCount <$> map.*2 ->
  gans' !! i = gans !! i.
Proof.
  revert gans. induction map as [|it map IH]; intros gans Hfill Hi; simpl in *.
  - by inversion Hfill.
  - case_bool_decide; [|done]. apply not_elem_of_cons in Hi as [Hne Hi].
    rewrite (IH _ Hfill Hi). by apply list_lookup_insert_ne.
Qed.

(** With pairwise distinct slots no write is overwritten. *)
Lemma fillNames_lookup map superCount gans gans' it :
  fillNames map superCount gans = Some gans' ->
  NoDup (slot superCount <$> map.*2) ->
  it ∈ map ->
  gans' !! slot superCount it.2 = Some it.1.
Proof.
  revert gans. induction map as [|it' map IH]; intros gans Hfill Hnd Hin; simpl in *.
  - by apply elem_of_nil in Hin.
  - case_bool_decide as Hslot; [|done]. apply NoDup_cons in Hnd as [Hfresh Hnd].
    apply elem_of_cons in Hin as [->|Hin].
    + rewrite (fillNames_lookup_other _ _ _ _ _ Hfill Hfresh).
      by apply list_lookup_insert_eq.
    + by eapply IH.
Qed.

Lemma fillNames_Permutation map superCount gans :
  fillNames map superCount (replicate (length map) []) = Some gans ->
  NoDup (slot superCount <$> map.*2) ->
  gans ≡ₚ map.*1.
Proof.
  intros Hfill Hnd.
  pose proof (fillNames_length _ _ _ _ Hfill) as Hlen. rewrite length_replicate in Hlen.
  assert (Hslots : slot superCount <$> map.*2 ≡ₚ seq 0 (length map)).
  { apply submseteq_length_Permutation.
    - apply NoDup_submseteq; [done|]. intros i Hi. apply elem_of_seq. split; [lia|]. simpl.
      apply list_elem_of_fmap in Hi as (ty & -> & Hty).
      apply list_elem_of_fmap in Hty as (it & -> & Hit).
      assert (His : is_Some (fillNames map superCount (replicate (length map) []))) by eauto.
      apply fillNames_is_Some in His. rewrite Forall_forall in His.
      specialize (His it Hit). by rewrite length_replicate in His.
    - by rewrite !length_fmap, length_seq. }
  set (g := fun i => default ([] : u32string) (gans !! i)).
  assert (Hnames : map.*1 = g <$> (slot superCount <$> map.*2)).
  { rewrite <- !list_fmap_compose. apply Forall_fmap_ext_1, Forall_forall. intros it Hit.
    unfold compose, g. by rewrite (fillNames_lookup _ _ _ _ _ Hfill Hnd Hit). }
  assert (Hgans : gans = g <$> seq 0 (length map)).
  { apply list_eq. intros i. rewrite list_lookup_fmap. unfold g.
    destruct (decide (i < length map)) as [Hi|Hi].
    - rewrite lookup_seq_lt by done. simpl.
      destruct (lookup_lt_is_Some_2 gans i) as [x Hx]; [lia|]. by rewrite Hx.
    - rewrite lookup_seq_ge by lia. simpl. apply lookup_ge_None. lia. }
  rewrite Hnames, Hgans. by apply fmap_Permutation.
Qed.

Lemma printf_run text w : printf text w = Some (tt, emit w (list_ascii_of_string text)).
Proof. done. Qed.

(** One round of the second loop, after the separator. *)
Lemma round_text tc (gan : option u32string) (constraint : option Ty) h :
  textOf
    (match gan, constraint with
     | Some gan, Some constraint =>
         _ ← printf ("{" ++ q "name" ++ ":")%string;
         _ ← printJSONStringToFile JSONString (c_str (utf8 gan));
         _ ← printf ("," ++ q "constraint" ++ ":")%string;
         _ ← reportType constraint tc;
         printf "}"
     | _, _ => undefined
     end) h
  = match gan, constraint with
    | Some gan, Some constraint => Some (genericArgumentText utf8 JSONString tc gan constraint)
    | _, _ => None
    end.
Proof.
  destruct gan as [gan|], constraint as [constraint|]; try done.
  unfold textOf, denote, genericArgumentText.
  unfold mbind, IO_bind, reportType, printJSONStringToFile, printf, write. simpl.
  by rewrite <- !app_assoc.
Qed.

Lemma rounds_text tc (gans : list u32string) (constraints : list Ty) :
  mapM (fun i =>
          match gans !! i, constraints !! i with
          | Some gan, Some constraint => Some (genericArgumentText utf8 JSONString tc gan constraint)
          | _, _ => None
          end) (seq 0 (length gans))
  = if bool_decide (length gans <= length constraints)
    then Some (zip_with (genericArgumentText utf8 JSONString tc) gans constraints)
    else None.
Proof.
  case_bool_decide as Hlen.
  - apply mapM_Some, Forall2_same_length_lookup. split.
    + rewrite length_seq, length_zip_with. lia.
    + intros i j text Hj Htext. apply lookup_seq in Hj as [-> Hi]. simpl.
      apply lookup_zip_with_Some in Htext as (gan & constraint & -> & Hgan & Hconstraint).
      by rewrite Hgan, Hconstraint.
  - apply mapM_None, Exists_exists. exists (length constraints). split.
    + apply elem_of_seq. lia.
    + rewrite (lookup_ge_None_2 constraints) by lia. by destruct (gans !! _).
Qed.

(** What [reportGenericArguments] does, in one equation. *)
Lemma reportGenericArguments_run map constraints superCount tc w :
  reportGenericArguments utf8 JSONString map constraints superCount tc w
  = match fillNames map superCount (replicate (length map) []) with
    | Some gans =>
        if bool_decide (length map <= length constraints)
        then Some (tt, emit w (genericArgumentsText utf8 JSONString tc gans constraints))
        else None
    | None => None
    end.
Proof.
  unfold reportGenericArguments. unfold mbind at 1, IO_bind. rewrite printf_run.
  destruct (fillNames _ _ _) as [gans|] eqn:Hfill; [|done].
  apply fillNames_length in Hfill. rewrite length_replicate in Hfill.
  unfold mbind at 1, IO_bind. erewrite for_each_fresh_text.
  2: { intros i. read_only. }
  rewrite heap_emit. erewrite mapM_ext. 2: { intros i. apply round_text. }
  rewrite rounds_text, Hfill. generalize (bool_decide (seq 0 (length map) <> [])). intros b.
  case_bool_decide; cbn [fmap option_fmap option_map]; [|done].
  by rewrite printf_run, !emit_emit.
Qed.

(** ** The properties of the reporter *)

(** C5: the reporter only reads the declaration heap and only writes to
    stdout.  Running [reportPackage] in any world gives what running it on
    that world's declaration heap alone gives (no resolution recorded, stdout
    empty): it is undefined in both or defined in both, and then the heap and
    the recorded call resolutions are unchanged and the text is appended to
    stdout.  No resolution is ever read, since the text is computed without
    any.  The helpers have the same property. *)
Theorem reportPackage_reads_only (package : ptr) (w : World) :
  reportPackage utf8 JSONString package w
  = match denote (reportPackage utf8 JSONString package) (heap w) with
    | Some (_, text) =>
        Some (tt, {| heap := heap w; resolutions := resolutions w; stdout := stdout w ++ text |})
    | None => None
    end
  /\ (forall function returnKind tc, ReadOnly (reportFunction utf8 JSONString function returnKind tc))
  /\ (forall map constraints superCount tc,
        ReadOnly (reportGenericArguments utf8 JSONString map constraints superCount tc))
  /\ (forall documentation, ReadOnly (reportDocumentation utf8 JSONString documentation))
  /\ (forall type tc, ReadOnly (reportType type tc))
  /\ (forall typeDef_ functions, ReadOnly (printFunctions utf8 JSONString typeDef_ functions))
  /\ (forall typeDef_, ReadOnly (reportBasics utf8 JSONString typeDef_))
  /\ (forall typeDef_, ReadOnly (ClassReporter_reportBasics utf8 JSONString typeDef_))
  /\ (forall typeDef_, ReadOnly (EnumReporter_reportBasics utf8 JSONString typeDef_)).
Proof.
  split.
  - rewrite (ReadOnly_run _ w (ReadOnly_reportPackage package)).
    by destruct (denote _ _) as [[[] text]|].
  - auto 10 using ReadOnly_reportFunction, ReadOnly_reportGenericArguments,
      ReadOnly_reportDocumentation, ReadOnly_reportType, ReadOnly_printFunctions,
      ReadOnly_reportBasics, ReadOnly_ClassReporter_reportBasics,
      ReadOnly_EnumReporter_reportBasics.
Qed.

(** C8, as amended: [reportGenericArguments] stays in bounds exactly when
    every slot [genericVariableIndex - superCount], computed in [size_t], is
    below [map.size()] and [constraints] has at least [map.size()] entries.
    Indices in [superCount, superCount + map.size()) give such slots; they
    need not be distinct for that.  When they are also distinct, the names
    written are the names of the map, each once, the name of index
    [superCount + i] in slot [i], and slot [i] is paired with
    [constraints[i]]. *)
Theorem reportGenericArguments_bounds (map : std_map u32string Ty) (constraints : list Ty)
    (superCount : Z) (tc : TypeContext) (w : World) :
  (is_Some (reportGenericArguments utf8 JSONString map constraints superCount tc w)
   <-> Forall (fun it => slot superCount it.2 < length map) map
       /\ length map <= length constraints)
  /\ (Forall (fun it => (superCount <= genericVariableIndex it.2
                         < superCount + Z.of_nat (length map))%Z) map ->
      Forall (fun it => slot superCount it.2 < length map) map)
  /\ (Forall (fun it => (superCount <= genericVariableIndex it.2
                         < superCount + Z.of_nat (length map))%Z) map ->
      NoDup (genericVariableIndex <$> map.*2) ->
      (Z.of_nat (length map) <= size_t_modulus)%Z ->
      length map <= length constraints ->
      exists gans,
        reportGenericArguments utf8 JSONString map constraints superCount tc w
        = Some (tt, emit w (genericArgumentsText utf8 JSONString tc gans constraints))
        /\ gans ≡ₚ map.*1
        /\ Forall (fun it =>
             gans !! Z.to_nat (genericVariableIndex it.2 - superCount) = Some it.1) map).
Proof.
  assert (Hrange : Forall (fun it => (superCount <= genericVariableIndex it.2
                                      < superCount + Z.of_nat (length map))%Z) map ->
                   Forall (fun it => slot superCount it.2 < length map) map).
  { intros Hin. eapply Forall_impl; [exact Hin|]. simpl.
    intros it Hit. unfold slot, size_t_sub, size_t_modulus.
    pose proof (Z.mod_pos_bound (genericVariableIndex it.2 - superCount) (2 ^ 64)) as Hmod.
    pose proof (Z.mod_le (genericVariableIndex it.2 - superCount) (2 ^ 64)) as Hle.
    lia. }
  split; [|split; [done|]].
  - rewrite reportGenericArguments_run.
    pose proof (fillNames_is_Some map superCount (replicate (length map) [])) as Hfill.
    rewrite length_replicate in Hfill. rewrite <- Hfill.
    destruct (fillNames _ _ _) as [gans|].
    + case_bool_decide as Hlen.
      * split; [intros _; split; [eauto|done] | eauto].
      * split; [by intros ?%is_Some_None | by intros [_ ?]].
    + split; [by intros ?%is_Some_None | by intros [?%is_Some_None _]].
  - intros Hin Hnd Hsize Hconstraints.
    assert (Hslot : forall it, it ∈ map ->
              slot superCount it.2 = Z.to_nat (genericVariableIndex it.2 - superCount)).
    { intros it Hit. rewrite Forall_forall in Hin. specialize (Hin it Hit).
      unfold slot, size_t_sub. rewrite Z.mod_small; [done|]. lia. }
    assert (Hslots : NoDup (slot superCount <$> map.*2)).
    { apply NoDup_fmap_2_strong; [|by apply NoDup_fmap_1 in Hnd].
      intros ty ty' Hty Hty' Heq.
      apply (NoDup_fmap_elem_inj genericVariableIndex map.*2); [done..|].
      apply list_elem_of_fmap in Hty as (it & -> & Hit).
      apply list_elem_of_fmap in Hty' as (it' & -> & Hit').
      rewrite (Hslot it Hit), (Hslot it' Hit') in Heq.
      rewrite Forall_forall in Hin. pose proof (Hin it Hit). pose proof (Hin it' Hit'). lia. }
    destruct (fillNames map superCount (replicate (length map) [])) as [gans|] eqn:Hfill.
    + exists gans. rewrite reportGenericArguments_run, Hfill, bool_decide_true by done.
      split; [done|]. split; [by eapply fillNames_Permutation|].
      apply Forall_forall. intros it Hit. rewrite <- (Hslot it Hit).
      by eapply fillNames_lookup.
    + exfalso. apply Hrange in Hin.
      pose proof (fillNames_is_Some map superCount (replicate (length map) [])) as His.
      rewrite length_replicate, Hfill in His. apply His in Hin. by apply is_Some_None in Hin.
Qed.

(** C9: a [CommaPrinter] writes a comma on every call of [print] but the
    first.  Over the items [xs], the calls on a fresh printer alone write
    [length xs - 1] commas (none for no item); when each round writes the
    text of its item after the call, the output is the texts with one comma
    between neighbours, none in front and none at the end; and
    [printFunctions] writes the texts of its functions in this way. *)
Theorem CommaPrinter_separates {A} (xs : list A) (body : A -> IO unit) (text : A -> stream)
    (w : World) :
  (forall x w', x ∈ xs -> heap w' = heap w -> body x w' = Some (tt, emit w' (text x))) ->
  for_each xs (fun _ printer => CommaPrinter_print printer) CommaPrinter_default w
  = Some ({| printedFirst_ := bool_decide (xs <> []) |},
          emit w (replicate (length xs - 1) ","%char))
  /\ for_each xs (fun x printer => printer ← CommaPrinter_print printer; _ ← body x; mret printer)
       CommaPrinter_default w
     = Some ({| printedFirst_ := bool_decide (xs <> []) |}, emit w (joinComma (text <$> xs)))
  /\ (forall typeDef_ functions h,
        textOf (printFunctions utf8 JSONString typeDef_ functions) h
        = joinComma <$>
            mapM (fun function =>
                    textOf (reportFunction utf8 JSONString function Return
                              {| calleeDefinition := typeDef_; contextFunction := Some function |}) h)
                 functions).
Proof.
  intros Hbody. split; [apply print_commas|]. split; [by apply for_each_fresh|].
  intros typeDef_ functions h. unfold textOf at 1, denote, printFunctions.
  unfold mbind at 1, IO_bind. rewrite for_each_fresh_text.
  2: { intros function. apply ReadOnly_reportFunction. }
  simpl. by destruct (mapM _ functions).
Qed.

(** [c_str] keeps a string without a NUL byte whole, and cuts any other at
    its first NUL byte. *)
Lemma c_str_whole (s : string) :
  "000"%char ∉ list_ascii_of_string s -> c_str s = s.
Proof.
  induction s as [|c s IH]; [done|]. simpl. intros Hnul.
  apply not_elem_of_cons in Hnul as [Hc Hs].
  destruct (Ascii.eqb_spec c "000") as [->|_]; [done|]. by rewrite IH.
Qed.

Lemma c_str_cut (pre post : string) :
  "000"%char ∉ list_ascii_of_string pre ->
  c_str (pre ++ String "000" post) = pre.
Proof.
  induction pre as [|c pre IH]; [done|]. simpl. intros Hnul.
  apply not_elem_of_cons in Hnul as [Hc Hs].
  destruct (Ascii.eqb_spec c "000") as [->|_]; [done|]. by rewrite IH.
Qed.

(** The run of [reportDocumentation] on a non-empty documentation string. *)
Lemma reportDocumentation_run (c : N) (rest : u32string) (w : World) :
  reportDocumentation utf8 JSONString (c :: rest) w
  = Some (tt, emit w (list_ascii_of_string (q "documentation" ++ ":")%string
                      ++ JSONString (c_str (utf8 (c :: rest)))
                      ++ [","%char])).
Proof.
  unfold reportDocumentation.
  unfold mbind, IO_bind. rewrite printf_run. unfold printJSONStringToFile, putc, write.
  simpl. unfold emit. simpl. by rewrite <- !app_assoc.
Qed.

(** C10, as amended: [reportDocumentation] writes nothing for an empty
    documentation string and leaves the world as it is; for a non-empty one
    it writes the key, the UTF-8 text up to its first NUL byte as
    [printJSONStringToFile] writes it, and a comma.  The text is written
    whole when it holds no NUL byte; otherwise what follows the first NUL
    byte is dropped. *)
Theorem reportDocumentation_empty_omitted (w : World) :
  reportDocumentation utf8 JSONString [] w = Some (tt, w)
  /\ (forall c rest,
        reportDocumentation utf8 JSONString (c :: rest) w
        = Some (tt, emit w (list_ascii_of_string (q "documentation" ++ ":")%string
                            ++ JSONString (c_str (utf8 (c :: rest)))
                            ++ [","%char])))
  /\ (forall c rest,
        "000"%char ∉ list_ascii_of_string (utf8 (c :: rest)) ->
        reportDocumentation utf8 JSONString (c :: rest) w
        = Some (tt, emit w (list_ascii_of_string (q "documentation" ++ ":")%string
                            ++ JSONString (utf8 (c :: rest))
                            ++ [","%char])))
  /\ (forall c rest pre post,
        utf8 (c :: rest) = (pre ++ String "000" post)%string ->
        "000"%char ∉ list_ascii_of_string pre ->
        reportDocumentation utf8 JSONString (c :: rest) w
        = Some (tt, emit w (list_ascii_of_string (q "documentation" ++ ":")%string
                            ++ JSONString pre
                            ++ [","%char]))).
Proof.
  split; [done|]. split; [intros c rest; apply reportDocumentation_run|]. split.
  - intros c rest Hnul. by rewrite reportDocumentation_run, (c_str_whole _ Hnul).
  - intros c rest pre post Htext Hnul.
    by rewrite reportDocumentation_run, Htext, (c_str_cut _ _ Hnul).
Qed.

End ReporterFacts.

(** ** The properties on the sample declarations *)

(** The reporter run on the sample package. *)
Example reportPackage_sample :
  (fun r => string_of_list_ascii (stdout r.2))
    <$> reportPackage Sample.utf8 Sample.JSONString 0 Sample.world
  = Some (String.concat EmptyString
      [ "{"; q "documentation"; ":"; q "Shapes."; ",";
        q "valueTypes"; ":[],";
        q "classes"; ":[{"; q "name"; ": "; q "Square"; ","; q "conformsTo"; ":[],";
          q "genericArguments"; ":[],";
          q "methods"; ":[{"; q "name"; ":"; q "area"; ","; q "access"; ":"; q "🔓"; ",";
            q "returnType"; ":{"; q "package"; ":"; q "demo"; ","; q "name"; ":"; q "Number"; ",";
              q "optional"; ":false},";
            q "genericArguments"; ":[{"; q "name"; ":"; q "B"; ","; q "constraint"; ":{";
                q "package"; ":"; q "demo"; ","; q "name"; ":"; q "Any"; ","; q "optional"; ":false}},{";
              q "name"; ":"; q "A"; ","; q "constraint"; ":{";
                q "package"; ":"; q "demo"; ","; q "name"; ":"; q "Some"; ","; q "optional"; ":false}}],";
            q "documentation"; ":"; q "The area."; ",";
            q "arguments"; ":[{"; q "type"; ":{"; q "package"; ":"; q "demo"; ","; q "name"; ":";
              q "Number"; ","; q "optional"; ":false},"; q "name"; ":"; q "scale"; "}]}],";
          q "initializers"; ":[{"; q "name"; ":"; q "make"; ","; q "access"; ":"; q "🔒"; ",";
            q "errorType"; ":{"; q "package"; ":"; q "demo"; ","; q "name"; ":"; q "Failure"; ",";
              q "optional"; ":false},";
            q "genericArguments"; ":[],"; q "arguments"; ":[]}],";
          q "typeMethods"; ":[],"; q "superclass"; ":{"; q "package"; ":"; q "demo"; ",";
            q "name"; ":"; q "Shape"; "}}],";
        q "enums"; ": [{"; q "name"; ": "; q "Colour"; ","; q "conformsTo"; ":[],";
          q "genericArguments"; ":[],"; q "methods"; ":[],"; q "initializers"; ":[],";
          q "typeMethods"; ":[],"; q "values"; ":[{"; q "documentation"; ":"; q "Warm."; ",";
            q "value"; ":"; q "red"; "},{"; q "value"; ":"; q "teal"; "}]}],";
        q "protocols"; ":[{"; q "name"; ": "; q "Drawable"; ","; q "conformsTo"; ":[],";
          q "genericArguments"; ":[],"; q "methods"; ":[],"; q "initializers"; ":[],";
          q "typeMethods"; ":[]}]}" ]).
Proof. vm_compute. reflexivity. Qed.

(** The generic arguments of the sample method: indices 1 and 0 over no
    inherited argument. *)
Lemma reportGenericArguments_bounds_witness :
  exists gans,
    reportGenericArguments Sample.utf8 Sample.JSONString
      (Function.genericArgumentVariables Sample.area)
      (Function.genericArgumentConstraints Sample.area) 0 Sample.noContext Sample.world
    = Some (tt, emit Sample.world
                  (genericArgumentsText Sample.utf8 Sample.JSONString Sample.noContext gans
                     (Function.genericArgumentConstraints Sample.area)))
    /\ gans ≡ₚ (Function.genericArgumentVariables Sample.area).*1
    /\ Forall (fun it => gans !! Z.to_nat (genericVariableIndex it.2 - 0) = Some it.1)
         (Function.genericArgumentVariables Sample.area).
Proof.
  apply (proj2 (proj2 (reportGenericArguments_bounds Sample.utf8 Sample.JSONString
           (Function.genericArgumentVariables Sample.area)
           (Function.genericArgumentConstraints Sample.area) 0 Sample.noContext Sample.world))).
  - repeat constructor; simpl; lia.
  - simpl. apply NoDup_cons. split; [|apply NoDup_singleton].
    intros Hin. apply list_elem_of_singleton in Hin. discriminate.
  - vm_compute. discriminate.
  - simpl. lia.
Defined.

(** Two names with the same index: every access is in bounds, the second
    name overwrites the first and the other slot keeps the empty string. *)
Lemma reportGenericArguments_equal_indices :
  let map := [(Sample.u32 "A", Sample.generic 0 "A"); (Sample.u32 "B", Sample.generic 0 "B")] in
  let constraints := [Sample.generic 0 "Any"; Sample.generic 0 "Some"] in
  reportGenericArguments Sample.utf8 Sample.JSONString map constraints 0 Sample.noContext
    Sample.world
  = Some (tt, emit Sample.world
                (genericArgumentsText Sample.utf8 Sample.JSONString Sample.noContext
                   [Sample.u32 "B"; []] constraints))
  /\ Forall (fun it => (0 <= genericVariableIndex it.2 < 0 + Z.of_nat (length map))%Z) map
  /\ length map <= length constraints
  /\ ~ NoDup (genericVariableIndex <$> map.*2).
Proof.
  split; [by vm_compute|]. split; [repeat constructor; simpl; lia|]. split; [simpl; lia|].
  simpl. intros Hnd. apply NoDup_cons in Hnd as [Hin _]. apply Hin. by left.
Qed.

(** Three items written through a fresh printer. *)
Lemma CommaPrinter_separates_witness :
  for_each ["a"; "b"; "c"]%string (fun _ printer => CommaPrinter_print printer)
    CommaPrinter_default Sample.world
  = Some ({| printedFirst_ := true |}, emit Sample.world [","; ","]%char)
  /\ for_each ["a"; "b"; "c"]%string
       (fun x printer => printer ← CommaPrinter_print printer; _ ← printf x; mret printer)
       CommaPrinter_default Sample.world
     = Some ({| printedFirst_ := true |}, emit Sample.world ["a"; ","; "b"; ","; "c"]%char).
Proof.
  pose proof (CommaPrinter_separates Sample.utf8 Sample.JSONString
                ["a"; "b"; "c"]%string printf list_ascii_of_string Sample.world) as H.
  destruct H as (Hcommas & Htexts & _); [reflexivity|].
  split; [exact Hcommas | exact Htexts].
Defined.

(** The documentation of the sample package holds no NUL byte and is
    written whole. *)
Lemma reportDocumentation_empty_omitted_witness :
  reportDocumentation Sample.utf8 Sample.JSONString (Sample.u32 "Shapes.") Sample.world
  = Some (tt, emit Sample.world
                (list_ascii_of_string (q "documentation" ++ ":" ++ q "Shapes." ++ ","))).
Proof.
  destruct (reportDocumentation_empty_omitted Sample.utf8 Sample.JSONString Sample.world)
    as (_ & _ & Hwhole & _).
  change (Sample.u32 "Shapes.") with (83%N :: Sample.u32 "hapes.").
  rewrite Hwhole; [reflexivity|].
  apply (bool_decide_unpack _). by vm_compute.
Defined.

(** A documentation string with a NUL code point: the three code points
    a, NUL, b are not empty and their UTF-8 text is three bytes long, yet
    the entry written is that of the single letter a, whatever
    [printJSONStringToFile] writes for a C string; the single code point NUL
    gives the key with the empty string as its value.  So a JSON writer that
    tells the two texts apart does not get the documentation in full. *)
Lemma reportDocumentation_cut_at_nul :
  ([97; 0; 98]%N : u32string) <> []
  /\ Sample.utf8 [97; 0; 98]%N = String "a" (String "000" (String "b" EmptyString))
  /\ reportDocumentation Sample.utf8 Sample.JSONString [97; 0; 98]%N Sample.world
     = Some (tt, emit Sample.world
                   (list_ascii_of_string (q "documentation" ++ ":" ++ q "a" ++ ",")))
  /\ reportDocumentation Sample.utf8 Sample.JSONString [0%N] Sample.world
     = Some (tt, emit Sample.world
                   (list_ascii_of_string (q "documentation" ++ ":" ++ q EmptyString ++ ",")))
  /\ (forall JSONString w,
        reportDocumentation Sample.utf8 JSONString [97; 0; 98]%N w
        = reportDocumentation Sample.utf8 JSONString [97%N] w)
  /\ (forall JSONString,
        JSONString (String "a" (String "000" (String "b" EmptyString))) <> JSONString "a" ->
        ~ documentation_in_full Sample.utf8 JSONString)
  /\ ~ documentation_in_full Sample.utf8 Sample.JSONString.
Proof.
  assert (forall JSONString,
            JSONString (String "a" (String "000" (String "b" EmptyString))) <> JSONString "a" ->
            ~ documentation_in_full Sample.utf8 JSONString) as Hfull.
  { intros JSONString Hapart Hdoc.
    specialize (Hdoc [97; 0; 98]%N Sample.world ltac:(done)).
    rewrite reportDocumentation_run in Hdoc. injection Hdoc as Hdoc.
    apply app_inv_tail in Hdoc. apply Hapart. symmetry. exact Hdoc. }
  split; [done|]. split; [reflexivity|]. split; [reflexivity|]. split; [reflexivity|].
  split; [reflexivity|]. split; [exact Hfull|].
  apply Hfull. vm_compute. discriminate.
Qed.

End PackageReporterFacts.

(** * Further facts about the package reporter *)

Module PackageReporterMore.
Import PackageReporter ReporterText PackageReporterFacts.

Local Open Scope list_scope.

#[local] Hint Resolve ReadOnly_ret ReadOnly_undefined ReadOnly_write ReadOnly_printf
  ReadOnly_putc ReadOnly_read ReadOnly_CommaPrinter_print ReadOnly_printJSONStringToFile
  ReadOnly_reportDocumentation ReadOnly_reportType ReadOnly_reportGenericArguments
  ReadOnly_reportFunction ReadOnly_printFunctions ReadOnly_initializerKind
  ReadOnly_reportBasics : readonly.

(** ** The text of a computation *)

Lemma denote_bind {A B} (m : IO A) (k : A -> IO B) h :
  ReadOnly m -> (forall a, ReadOnly (k a)) ->
  denote (m ≫= k) h
  = match denote m h with
    | Some (a, s) =>
        match denote (k a) h with
        | Some (b, t) => Some (b, s ++ t)
        | None => None
        end
    | None => None
    end.
Proof.
  intros Hm Hk. unfold denote at 1. unfold mbind, IO_bind. rewrite (ReadOnly_run m) by done.
  simpl. destruct (denote m h) as [[a s]|]; simpl; [|done].
  rewrite (ReadOnly_run (k a)) by done. simpl.
  by destruct (denote (k a) h) as [[b t]|].
Qed.

Lemma textOf_seq {A B} (m : IO A) (k : IO B) h :
  ReadOnly m -> ReadOnly k ->
  textOf (m ≫= fun _ => k) h = s ← textOf m h; t ← textOf k h; Some (s ++ t).
Proof.
  intros Hm Hk. unfold textOf. rewrite denote_bind by done.
  destruct (denote m h) as [[a s]|]; simpl; [|done].
  by destruct (denote k h) as [[b t]|].
Qed.

Lemma textOf_read_bind {A B} (table : Heap -> gmap ptr A) p (k : A -> IO B) h :
  textOf (read table p ≫= k) h = a ← table h !! p; textOf (k a) h.
Proof.
  unfold textOf, denote, mbind at 1, IO_bind, read. simpl.
  by destruct (table h !! p).
Qed.

Lemma denote_text_bind {A} (m : IO A) (k : A -> IO unit) h :
  ReadOnly m -> (forall a, ReadOnly (k a)) ->
  textOf (m ≫= k) h
  = match denote m h with
    | Some (a, s) => (fun t => s ++ t) <$> textOf (k a) h
    | None => None
    end.
Proof.
  intros Hm Hk. unfold textOf. rewrite denote_bind by done.
  destruct (denote m h) as [[a s]|]; [|done].
  by destruct (denote (k a) h) as [[b t]|].
Qed.

Lemma textOf_write text h : textOf (write text) h = Some text.
Proof. done. Qed.

Lemma textOf_printf text h : textOf (printf text) h = Some (list_ascii_of_string text).
Proof. done. Qed.

Lemma textOf_putc c h : textOf (putc c) h = Some [c].
Proof. done. Qed.

Lemma textOf_ret {A} (a : A) h : textOf (mret a : IO A) h = Some [].
Proof. done. Qed.

Lemma textOf_undefined {A} h : textOf (undefined : IO A) h = None.
Proof. done. Qed.

(** A defined run appends the text of the computation. *)
Lemma textOf_run (m : IO unit) w :
  ReadOnly m -> m w = (fun t => (tt, emit w t)) <$> textOf m (heap w).
Proof.
  intros Hm. rewrite (ReadOnly_run m) by done. unfold textOf.
  by destruct (denote m (heap w)) as [[[] t]|].
Qed.

Lemma textOf_is_Some (m : IO unit) w :
  ReadOnly m -> is_Some (m w) <-> is_Some (textOf m (heap w)).
Proof. intros Hm. rewrite textOf_run by done. apply fmap_is_Some. Qed.

(** ** Loops around a comma printer *)

Lemma for_each_ext {A S} (xs : list A) (body body' : A -> S -> IO S) s w :
  (forall x s' w', body x s' w' = body' x s' w') ->
  for_each xs body s w = for_each xs body' s w.
Proof.
  intros Hbody. revert s w. induction xs as [|x xs IH]; intros s w; [done|]. simpl.
  unfold mbind, IO_bind. rewrite Hbody. destruct (body' x s w) as [[s' w']|]; [apply IH|done].
Qed.

(** A loop whose rounds call [print] and then write an item writes the items
    with commas between them. *)
Lemma textOf_comma_loop {A} (xs : list A) (body : A -> CommaPrinter -> IO CommaPrinter)
    (item : A -> IO unit) h :
  (forall x p w, body x p w
     = (printer ← CommaPrinter_print p; _ ← item x; mret printer) w) ->
  (forall x, ReadOnly (item x)) ->
  textOf (for_each xs body CommaPrinter_default) h
  = joinComma <$> mapM (fun x => textOf (item x) h) xs.
Proof.
  intros Hbody Hitem. unfold textOf at 1, denote.
  rewrite (for_each_ext xs body _ _ _ Hbody), for_each_fresh_text by done. simpl.
  by destruct (mapM _ xs).
Qed.

Lemma mapM_total {A B} (f : A -> option B) (g : A -> B) (l : list A) :
  (forall x, f x = Some (g x)) -> mapM f l = Some (g <$> l).
Proof.
  intros Hf. induction l as [|x l IH]; [done|]. simpl. by rewrite Hf, IH.
Qed.

(** Decides that a round has the shape [textOf_comma_loop] asks for. *)
Ltac round_cases :=
  unfold mbind, IO_bind; simpl;
  repeat match goal with
         | |- context [match ?m ?w with _ => _ end] => destruct (m w) as [[? ?]|]; simpl
         end; reflexivity.

Ltac round_shape := intros ? [[]] ?; round_cases.

Section GenericArguments.

Context (utf8 : u32string -> string) (JSONString : string -> stream).

(** After the first loop every slot holds the name written to it last. *)
Lemma fillNames_last map superCount gans gans' i :
  fillNames map superCount gans = Some gans' ->
  gans' !! i
  = match last (List.filter (fun it => bool_decide (slot superCount it.2 = i)) map) with
    | Some it => Some it.1
    | None => gans !! i
    end.
Proof.
  revert gans. induction map as [|it map IH]; intros gans Hfill; simpl in Hfill.
  - by inversion Hfill.
  - case_bool_decide as Hslot; [|done]. rewrite (IH _ Hfill). cbn [List.filter].
    case_bool_decide as Hi.
    + rewrite last_cons. destruct (last _) as [it'|]; [done|].
      subst i. by apply list_lookup_insert_eq.
    + destruct (last _) as [it'|]; [done|]. by apply list_lookup_insert_ne.
Qed.

(** X1: when [reportGenericArguments] stays in bounds, slot [i] of the
    names it writes holds the name of the last map entry, in key order,
    whose index minus [superCount] is [i], and the empty string when no
    entry has that slot; slot [i] is written beside [constraints[i]]. *)
Theorem reportGenericArguments_last_writer (map : std_map u32string Ty) (constraints : list Ty)
    (superCount : Z) (tc : TypeContext) (w : World) :
  is_Some (reportGenericArguments utf8 JSONString map constraints superCount tc w) ->
  reportGenericArguments utf8 JSONString map constraints superCount tc w
  = Some (tt, emit w (genericArgumentsText utf8 JSONString tc
                        (lastWriter map superCount <$> seq 0 (length map)) constraints)).
Proof.
  rewrite reportGenericArguments_run.
  destruct (fillNames _ _ _) as [gans|] eqn:Hfill; [|by intros ?%is_Some_None].
  case_bool_decide; [intros _|by intros ?%is_Some_None].
  do 4 f_equal. apply list_eq. intros i.
  pose proof (fillNames_length _ _ _ _ Hfill) as Hlen. rewrite length_replicate in Hlen.
  rewrite (fillNames_last _ _ _ _ i Hfill), list_lookup_fmap. unfold lastWriter.
  destruct (decide (i < length map)) as [Hi|Hi].
  - rewrite lookup_seq_lt by done. simpl.
    destruct (last _) as [it|]; [done|]. by rewrite lookup_replicate_2.
  - rewrite lookup_seq_ge by lia. simpl.
    destruct (last _) as [it|] eqn:Hlast.
    + exfalso. apply last_Some_elem_of, list_elem_of_In, filter_In in Hlast as [Hin Hslot].
      apply bool_decide_eq_true in Hslot.
      assert (is_Some (fillNames map superCount (replicate (length map) []))) as His by eauto.
      apply fillNames_is_Some in His. rewrite Forall_forall in His.
      apply list_elem_of_In, His in Hin. rewrite length_replicate in Hin. lia.
    + apply lookup_replicate_None. lia.
Qed.

(** X2: with pairwise distinct slots the iteration order of the map does
    not matter: a map with the same entries in another order gives the same
    run, undefined or defined with the same text. *)
Theorem reportGenericArguments_order (map map' : std_map u32string Ty) (constraints : list Ty)
    (superCount : Z) (tc : TypeContext) (w : World) :
  map ≡ₚ map' ->
  NoDup (slot superCount <$> map.*2) ->
  reportGenericArguments utf8 JSONString map constraints superCount tc w
  = reportGenericArguments utf8 JSONString map' constraints superCount tc w.
Proof.
  intros Hperm Hnd. rewrite !reportGenericArguments_run.
  assert (Hlen : length map' = length map) by (by rewrite Hperm).
  assert (Hnd' : NoDup (slot superCount <$> map'.*2)) by (by rewrite <- Hperm).
  rewrite Hlen.
  destruct (fillNames map superCount _) as [gans|] eqn:Hfill;
    destruct (fillNames map' superCount _) as [gans'|] eqn:Hfill'.
  - replace gans' with gans; [done|]. apply list_eq. intros i.
    destruct (decide (i ∈ slot superCount <$> map.*2)) as [Hi|Hi].
    + apply list_elem_of_fmap in Hi as (ty & -> & Hty).
      apply list_elem_of_fmap in Hty as (it & -> & Hit).
      rewrite (fillNames_lookup _ _ _ _ it Hfill Hnd Hit). symmetry.
      apply (fillNames_lookup _ _ _ _ it Hfill' Hnd'). by rewrite <- Hperm.
    + rewrite (fillNames_lookup_other _ _ _ _ i Hfill Hi).
      rewrite (fillNames_lookup_other _ _ _ _ i Hfill'); [done|]. by rewrite <- Hperm.
  - exfalso. assert (is_Some (fillNames map superCount (replicate (length map) []))) as His by eauto.
    apply fillNames_is_Some in His. rewrite Hperm, <- (length_replicate (length map) ([] : u32string)) in His.
    apply fillNames_is_Some in His. rewrite length_replicate in His.
    rewrite Hfill' in His. by apply is_Some_None in His.
  - exfalso. assert (is_Some (fillNames map' superCount (replicate (length map) []))) as His by eauto.
    apply fillNames_is_Some in His. rewrite <- Hperm in His.
    apply fillNames_is_Some in His. rewrite Hfill in His. by apply is_Some_None in His.
  - done.
Qed.

(** X3: only the first [map.size()] constraints are read: the run is the
    same when the constraints after them are cut off. *)
Theorem reportGenericArguments_constraints_read (map : std_map u32string Ty)
    (constraints : list Ty) (superCount : Z) (tc : TypeContext) (w : World) :
  reportGenericArguments utf8 JSONString map constraints superCount tc w
  = reportGenericArguments utf8 JSONString map (take (length map) constraints) superCount tc w.
Proof.
  rewrite !reportGenericArguments_run.
  destruct (fillNames _ _ _) as [gans|] eqn:Hfill; [|done].
  pose proof (fillNames_length _ _ _ _ Hfill) as Hlen. rewrite length_replicate in Hlen.
  rewrite length_take.
  destruct (decide (length map <= length constraints)) as [Hle|Hgt].
  - rewrite !bool_decide_true by lia. do 3 f_equal. unfold genericArgumentsText.
    f_equal. f_equal. f_equal. apply list_eq. intros i. rewrite !lookup_zip_with.
    destruct (gans !! i) as [gan|] eqn:Hgan; [|done]. simpl.
    apply lookup_lt_Some in Hgan. by rewrite lookup_take_lt by lia.
  - by rewrite !bool_decide_false by lia.
Qed.

End GenericArguments.

Section Functions.

Context (utf8 : u32string -> string) (JSONString : string -> stream).

Lemma textOf_reportDocumentation documentation h :
  textOf (reportDocumentation utf8 JSONString documentation) h
  = Some (documentationText utf8 JSONString documentation).
Proof.
  destruct documentation as [|c rest]; [done|].
  unfold textOf, denote, reportDocumentation, mbind, IO_bind, printf, printJSONStringToFile,
    putc, write. simpl. done.
Qed.

Lemma textOf_reportType type tc h :
  textOf (reportType type tc) h = Some (list_ascii_of_string (typeText type tc)).
Proof. done. Qed.

Lemma textOf_reportGenericArguments map constraints superCount tc h :
  textOf (reportGenericArguments utf8 JSONString map constraints superCount tc) h
  = genericText utf8 JSONString map constraints superCount tc.
Proof.
  unfold textOf, denote, genericText. rewrite reportGenericArguments_run.
  destruct (fillNames _ _ _) as [gans|]; [|done]. simpl. by case_bool_decide.
Qed.

Lemma textOf_return (f : Function.t) returnKind tc h :
  textOf (match returnKind with
          | Return =>
              _ ← printf (q "returnType" ++ ":")%string;
              _ ← reportType (Function.returnType f) tc;
              putc ","
          | ErrorProneInitializer =>
              _ ← printf (q "errorType" ++ ":")%string;
              match Function.initializer f with
              | Some init => _ ← reportType (Initializer.errorType init) tc; putc ","
              | None => undefined
              end
          | NoReturn => mret tt
          end) h
  = returnText f returnKind tc.
Proof.
  destruct returnKind; try done.
  unfold returnText. destruct (Function.initializer f); done.
Qed.

Lemma textOf_arguments (arguments : list Argument.t) tc h :
  textOf (for_each arguments (fun argument printer =>
            printer ← CommaPrinter_print printer;
            _ ← printf ("{" ++ q "type" ++ ":")%string;
            _ ← reportType (Argument.type argument) tc;
            _ ← printf ("," ++ q "name" ++ ":")%string;
            _ ← printJSONStringToFile JSONString (c_str (utf8 (Argument.variableName argument)));
            _ ← printf "}";
            mret printer) CommaPrinter_default) h
  = Some (joinComma (argumentText utf8 JSONString tc <$> arguments)).
Proof.
  rewrite (textOf_comma_loop _ _ (fun argument =>
            _ ← printf ("{" ++ q "type" ++ ":")%string;
            _ ← reportType (Argument.type argument) tc;
            _ ← printf ("," ++ q "name" ++ ":")%string;
            _ ← printJSONStringToFile JSONString (c_str (utf8 (Argument.variableName argument)));
            printf "}")).
  - rewrite (mapM_total _ (argumentText utf8 JSONString tc)); [done|].
    intros argument. unfold textOf, denote, mbind, IO_bind, reportType, printJSONStringToFile,
      printf, write. simpl. unfold argumentText. by rewrite <- !app_assoc.
  - round_shape.
  - intros argument. read_only.
Qed.

Lemma textOf_reportFunction function returnKind tc h :
  textOf (reportFunction utf8 JSONString function returnKind tc) h
  = f ← functions h !! function; functionText utf8 JSONString f returnKind tc.
Proof.
  unfold reportFunction. rewrite textOf_read_bind.
  destruct (functions h !! function) as [f|]; [|done]. simpl.
  repeat (rewrite textOf_seq; [|read_only..]).
  rewrite !textOf_printf, textOf_return, textOf_reportGenericArguments,
    textOf_reportDocumentation, textOf_arguments.
  unfold functionText. simpl.
  destruct (returnText f returnKind tc) as [ret|]; [|done]. simpl.
  destruct (genericText _ _ _ _ _ _) as [generics|]; [|done]. simpl.
  first [done | by rewrite <- !app_assoc].
Qed.

(** X4: what [reportFunction] writes.  Through a pointer to no function it
    is undefined; otherwise it appends to stdout one object for the function
    pointed to: the name unescaped, the access level, the return or error
    type member when the return kind asks for one, the generic arguments, the
    documentation member unless the documentation is empty, and the arguments
    with commas between them.  Nothing else on the heap is read. *)
Theorem reportFunction_text (function : ptr) (returnKind : ReturnKind) (tc : TypeContext)
    (w : World) :
  reportFunction utf8 JSONString function returnKind tc w
  = match functions (heap w) !! function with
    | Some f =>
        match functionText utf8 JSONString f returnKind tc with
        | Some text => Some (tt, emit w text)
        | None => None
        end
    | None => None
    end.
Proof.
  rewrite textOf_run by apply ReadOnly_reportFunction. rewrite textOf_reportFunction.
  destruct (functions (heap w) !! function) as [f|]; [|done]. simpl.
  by destruct (functionText _ _ _ _ _).
Qed.

(** X5: [reportFunction] is defined exactly when the pointer is to a
    function, that function is an [Initializer] if the return kind is
    [ErrorProneInitializer] (the [dynamic_cast] is not checked), every
    generic variable has its index, in [size_t], below the number of generic
    variables, and there are at least as many constraints as variables. *)
Theorem reportFunction_defined (function : ptr) (returnKind : ReturnKind) (tc : TypeContext)
    (w : World) :
  is_Some (reportFunction utf8 JSONString function returnKind tc w)
  <-> exists f,
        functions (heap w) !! function = Some f
        /\ (returnKind = ErrorProneInitializer -> is_Some (Function.initializer f))
        /\ Forall (fun it => slot 0 it.2 < length (Function.genericArgumentVariables f))
                  (Function.genericArgumentVariables f)
        /\ length (Function.genericArgumentVariables f)
           <= length (Function.genericArgumentConstraints f).
Proof.
  rewrite textOf_is_Some by apply ReadOnly_reportFunction.
  rewrite textOf_reportFunction.
  destruct (functions (heap w) !! function) as [f|]; simpl.
  - unfold functionText, genericText.
    pose proof (fillNames_is_Some (Function.genericArgumentVariables f) 0
                  (replicate (length (Function.genericArgumentVariables f)) [])) as Hfill.
    rewrite length_replicate in Hfill.
    split.
    + intros Hsome. exists f. split; [done|].
      destruct (returnText f returnKind tc) as [ret|] eqn:Hret; simpl in Hsome;
        [|by apply is_Some_None in Hsome].
      destruct (fillNames _ _ _) as [gans|]; simpl in Hsome; [|by apply is_Some_None in Hsome].
      case_bool_decide; [|by apply is_Some_None in Hsome].
      split; [|split; [apply Hfill; eauto|done]]. intros ->. simpl in Hret.
      destruct (Function.initializer f); [eauto|done].
    + intros (f' & [= <-] & Hinit & Hslots & Hlen). apply Hfill in Hslots as [gans Hgans].
      rewrite Hgans. simpl. rewrite bool_decide_true by done.
      destruct returnKind; simpl; eauto.
      destruct (Hinit eq_refl) as [init ->]. simpl. eauto.
  - split; [by intros ?%is_Some_None|by intros (f & ? & _)].
Qed.

End Functions.

Section TypeDefinitions.

Context (utf8 : u32string -> string) (JSONString : string -> stream).

Lemma textOf_printFunctions typeDef_ functions h :
  textOf (printFunctions utf8 JSONString typeDef_ functions) h
  = functionsText utf8 JSONString h typeDef_ functions.
Proof.
  unfold printFunctions, functionsText. rewrite textOf_seq; [|read_only..].
  rewrite (textOf_comma_loop _ _ (fun function =>
             reportFunction utf8 JSONString function Return
               {| calleeDefinition := typeDef_; contextFunction := Some function |}));
    [|round_shape|intros; read_only].
  rewrite textOf_ret. destruct (mapM _ functions); simpl; [|done]. by rewrite app_nil_r.
Qed.

Lemma ReadOnly_reportInitializer typeDef_ initializer :
  ReadOnly (reportInitializer utf8 JSONString typeDef_ initializer).
Proof. unfold reportInitializer. read_only. Qed.

Lemma textOf_reportInitializer typeDef_ initializer h :
  textOf (reportInitializer utf8 JSONString typeDef_ initializer) h
  = f ← functions h !! initializer;
    init ← Function.initializer f;
    textOf (reportFunction utf8 JSONString initializer
              (if Initializer.errorProne init then ErrorProneInitializer else NoReturn)
              {| calleeDefinition := typeDef_; contextFunction := Some initializer |}) h.
Proof.
  unfold reportInitializer, initializerKind. unfold textOf at 1, denote at 1.
  unfold mbind at 1, IO_bind at 1. unfold mbind at 1, IO_bind at 1, read. simpl.
  destruct (functions h !! initializer) as [f|]; [|done]. simpl.
  destruct (Function.initializer f) as [init|]; done.
Qed.

Lemma textOf_reportBasics typeDef_ h :
  textOf (reportBasics utf8 JSONString typeDef_) h = basicsText utf8 JSONString h typeDef_.
Proof.
  unfold reportBasics, basicsText. rewrite textOf_read_bind.
  destruct (typeDefinitions h !! typeDef_) as [d|]; [|done]. simpl.
  repeat (rewrite textOf_seq; [|read_only..]).
  rewrite !textOf_printf, !textOf_printFunctions, textOf_reportGenericArguments,
    textOf_reportDocumentation.
  rewrite (textOf_comma_loop _ _ (fun protocol =>
             reportType protocol {| calleeDefinition := typeDef_; contextFunction := None |}));
    [|round_shape|intros; read_only].
  rewrite (mapM_total _ (fun protocol => list_ascii_of_string
             (typeText protocol {| calleeDefinition := typeDef_; contextFunction := None |})))
    by done.
  rewrite (textOf_comma_loop _ _ (reportInitializer utf8 JSONString typeDef_));
    [|intros ? [[]] ?; unfold reportInitializer; round_cases
     |intros; apply ReadOnly_reportInitializer].
  destruct (genericText _ _ _ _ _ _) as [generics|]; [|done].
  destruct (functionsText _ _ _ _ (TypeDefinition.methodList d)) as [methods|]; [|done].
  destruct (mapM _ (TypeDefinition.initializerList d)) as [initializers|]; [|done].
  destruct (functionsText _ _ _ _ (TypeDefinition.typeMethodList d)) as [typeMethods|]; [|done].
  simpl. first [done | by rewrite <- !app_assoc].
Qed.

(** X13: what [reportBasics] writes for a type definition: the name
    unescaped, the protocols it conforms to, its own generic arguments with
    slots counted from the number of inherited generic arguments, the
    documentation member unless the documentation is empty, then the methods,
    the initializers (each under the return kind its [errorProne] gives) and
    the type methods, every array with commas between its elements.  It is
    undefined through a pointer to no type definition or when one of its
    parts is. *)
Theorem reportBasics_text (typeDef_ : ptr) (w : World) :
  reportBasics utf8 JSONString typeDef_ w
  = match basicsText utf8 JSONString (heap w) typeDef_ with
    | Some text => Some (tt, emit w text)
    | None => None
    end.
Proof.
  rewrite textOf_run by apply ReadOnly_reportBasics. rewrite textOf_reportBasics.
  by destruct (basicsText _ _ _ _).
Qed.

(** X6: [reportBasics] is defined exactly when the pointer is to a type
    definition whose own generic variables have their slots below their
    number and at most as many as there are constraints, every method and
    type method is reported without undefined behaviour, and every element of
    the initializer list is an [Initializer] that is reported without
    undefined behaviour under its return kind. *)
Theorem reportBasics_defined (typeDef_ : ptr) (w : World) :
  is_Some (reportBasics utf8 JSONString typeDef_ w)
  <-> exists d,
        typeDefinitions (heap w) !! typeDef_ = Some d
        /\ Forall (fun it => slot (Z.of_nat (length (TypeDefinition.superGenericArguments d))) it.2
                             < length (TypeDefinition.ownGenericArgumentVariables d))
                  (TypeDefinition.ownGenericArgumentVariables d)
        /\ length (TypeDefinition.ownGenericArgumentVariables d)
           <= length (TypeDefinition.genericArgumentConstraints d)
        /\ Forall (fun function =>
                     is_Some (reportFunction utf8 JSONString function Return
                                {| calleeDefinition := typeDef_; contextFunction := Some function |} w))
                  (TypeDefinition.methodList d ++ TypeDefinition.typeMethodList d)
        /\ Forall (fun initializer =>
                     exists f init,
                       functions (heap w) !! initializer = Some f
                       /\ Function.initializer f = Some init
                       /\ is_Some (reportFunction utf8 JSONString initializer
                                     (if Initializer.errorProne init
                                      then ErrorProneInitializer else NoReturn)
                                     {| calleeDefinition := typeDef_;
                                        contextFunction := Some initializer |} w))
                  (TypeDefinition.initializerList d).
Proof.
  rewrite textOf_is_Some by apply ReadOnly_reportBasics. rewrite textOf_reportBasics.
  unfold basicsText. destruct (typeDefinitions (heap w) !! typeDef_) as [d|]; simpl.
  2: { split; [by intros ?%is_Some_None|by intros (d & ? & _)]. }
  assert (Hgenerics : forall map constraints superCount tc,
            is_Some (genericText utf8 JSONString map constraints superCount tc)
            <-> Forall (fun it => slot superCount it.2 < length map) map
                /\ length map <= length constraints).
  { intros map constraints superCount tc. unfold genericText.
    pose proof (fillNames_is_Some map superCount (replicate (length map) [])) as Hfill.
    rewrite length_replicate in Hfill. rewrite <- Hfill.
    destruct (fillNames _ _ _) as [gans|]; simpl.
    - case_bool_decide; split; eauto; [by intros ?%is_Some_None|by intros [_ ?]].
    - split; [by intros ?%is_Some_None|by intros [?%is_Some_None _]]. }
  assert (Hfunctions : forall functions,
            is_Some (functionsText utf8 JSONString (heap w) typeDef_ functions)
            <-> Forall (fun function =>
                          is_Some (reportFunction utf8 JSONString function Return
                                     {| calleeDefinition := typeDef_;
                                        contextFunction := Some function |} w)) functions).
  { intros functions. unfold functionsText. rewrite fmap_is_Some, mapM_is_Some.
    apply Forall_proper; [|done]. intros function. simpl.
    by rewrite textOf_is_Some by apply ReadOnly_reportFunction. }
  assert (Hinitializers : forall initializers,
            is_Some (mapM (fun initializer =>
                             textOf (reportInitializer utf8 JSONString typeDef_ initializer) (heap w))
                          initializers)
            <-> Forall (fun initializer =>
                     exists f init,
                       functions (heap w) !! initializer = Some f
                       /\ Function.initializer f = Some init
                       /\ is_Some (reportFunction utf8 JSONString initializer
                                     (if Initializer.errorProne init
                                      then ErrorProneInitializer else NoReturn)
                                     {| calleeDefinition := typeDef_;
                                        contextFunction := Some initializer |} w))
                  initializers).
  { intros initializers. rewrite mapM_is_Some. apply Forall_proper; [|done].
    intros initializer. simpl. rewrite textOf_reportInitializer.
    destruct (functions (heap w) !! initializer) as [f|]; simpl.
    2: { split; [by intros ?%is_Some_None|by intros (f & init & ? & _)]. }
    destruct (Function.initializer f) as [init|] eqn:Hinit; simpl.
    2: { split; [by intros ?%is_Some_None|].
         intros (f' & init & [= <-] & Hinit' & _). congruence. }
    split.
    + intros Hsome. exists f, init. split; [done|]. split; [done|].
      by apply textOf_is_Some; [apply ReadOnly_reportFunction|].
    + intros (f' & init' & [= <-] & Hinit' & Hsome).
      rewrite Hinit in Hinit'. injection Hinit' as <-.
      by apply textOf_is_Some in Hsome; [|apply ReadOnly_reportFunction]. }
  split.
  - intros Hsome. exists d. split; [done|].
    destruct (genericText _ _ _ _ _ _) as [generics|] eqn:Hg; [|by apply is_Some_None in Hsome].
    destruct (functionsText _ _ _ _ (TypeDefinition.methodList d)) as [methods|] eqn:Hm;
      [|by apply is_Some_None in Hsome].
    destruct (mapM _ _) as [initializers|] eqn:Hi; [|by apply is_Some_None in Hsome].
    destruct (functionsText _ _ _ _ (TypeDefinition.typeMethodList d)) as [typeMethods|] eqn:Ht;
      [|by apply is_Some_None in Hsome].
    assert (is_Some (genericText utf8 JSONString (TypeDefinition.ownGenericArgumentVariables d)
                       (TypeDefinition.genericArgumentConstraints d)
                       (Z.of_nat (length (TypeDefinition.superGenericArguments d)))
                       {| calleeDefinition := typeDef_; contextFunction := None |}))
      as [Hslots Hlen]%Hgenerics by eauto.
    split; [done|]. split; [done|]. split.
    + apply Forall_app. split; apply Hfunctions; eauto.
    + apply Hinitializers. eauto.
  - intros (d' & [= <-] & Hslots & Hlen & [Hm Ht]%Forall_app & Hi).
    destruct (proj2 (Hgenerics _ (TypeDefinition.genericArgumentConstraints d) _
                       {| calleeDefinition := typeDef_; contextFunction := None |})
                    (conj Hslots Hlen)) as [generics ->].
    apply Hfunctions in Hm as [methods ->]. apply Hfunctions in Ht as [typeMethods ->].
    apply Hinitializers in Hi as [initializers ->]. simpl. eauto.
Qed.

Lemma ReadOnly_ClassReporter_suffix typeDef_ :
  ReadOnly (d ← read typeDefinitions typeDef_;
            match TypeDefinition.self d with
            | TypeDefinition.IsClass (Some superclass) =>
                s ← read typeDefinitions superclass;
                p ← read packages (TypeDefinition.package s);
                printf ("," ++ q "superclass" ++ ":{" ++ q "package" ++ ":"
                            ++ q (c_str (Package.name p)) ++ ","
                            ++ q "name" ++ ":" ++ q (c_str (utf8 (TypeDefinition.name s))) ++ "}")%string
            | TypeDefinition.IsClass None => mret tt
            | _ => undefined
            end).
Proof. read_only. Qed.

Lemma textOf_values (values : std_map u32string (Z * u32string)) h :
  textOf (for_each values (fun it printer =>
            printer ← CommaPrinter_print printer;
            _ ← printf "{";
            _ ← reportDocumentation utf8 JSONString it.2.2;
            _ ← printf (q "value" ++ ":" ++ q (c_str (utf8 it.1)) ++ "}")%string;
            mret printer) CommaPrinter_default) h
  = Some (joinComma (valueText utf8 JSONString <$> values)).
Proof.
  rewrite (textOf_comma_loop _ _ (fun it =>
            _ ← printf "{";
            _ ← reportDocumentation utf8 JSONString it.2.2;
            printf (q "value" ++ ":" ++ q (c_str (utf8 it.1)) ++ "}")%string)).
  - rewrite (mapM_total _ (valueText utf8 JSONString)); [done|].
    intros it. rewrite !textOf_seq by read_only.
    rewrite !textOf_printf, textOf_reportDocumentation. simpl. unfold valueText.
    first [done | by rewrite <- !app_assoc].
  - round_shape.
  - intros it. read_only.
Qed.

(** X7: the reporters of classes and enums write what [reportBasics]
    writes and then their own member.  A class without superclass gets
    nothing more, a class with one gets the [superclass] member with the
    package name and the name of the superclass, and an enum gets its values
    in key order with commas between them, each with its documentation unless
    that is empty.  Applied to a definition of another kind, or with a
    superclass or package pointer to no object, they are undefined. *)
Theorem derived_reporters_extend_basics (typeDef_ : ptr) (h : Heap) :
  textOf (ClassReporter_reportBasics utf8 JSONString typeDef_) h
  = (base ← textOf (reportBasics utf8 JSONString typeDef_) h;
     d ← typeDefinitions h !! typeDef_;
     match TypeDefinition.self d with
     | TypeDefinition.IsClass (Some superclass) =>
         s ← typeDefinitions h !! superclass;
         p ← packages h !! TypeDefinition.package s;
         Some (base ++ superclassText utf8 s p)
     | TypeDefinition.IsClass None => Some base
     | _ => None
     end)
  /\ textOf (EnumReporter_reportBasics utf8 JSONString typeDef_) h
     = (base ← textOf (reportBasics utf8 JSONString typeDef_) h;
        d ← typeDefinitions h !! typeDef_;
        match TypeDefinition.self d with
        | TypeDefinition.IsEnum values =>
            Some (base ++ list_ascii_of_string ("," ++ q "values" ++ ":[")%string
                       ++ joinComma (valueText utf8 JSONString <$> values)
                       ++ list_ascii_of_string "]")
        | _ => None
        end).
Proof.
  split.
  - unfold ClassReporter_reportBasics.
    rewrite textOf_seq; [|apply ReadOnly_reportBasics|apply ReadOnly_ClassReporter_suffix].
    destruct (textOf (reportBasics utf8 JSONString typeDef_) h) as [base|]; [|done]. simpl.
    rewrite textOf_read_bind. destruct (typeDefinitions h !! typeDef_) as [d|]; [|done]. simpl.
    destruct (TypeDefinition.self d) as [[superclass|]| | |]; try done.
    + rewrite textOf_read_bind. destruct (typeDefinitions h !! superclass) as [s|]; [|done].
      simpl. rewrite textOf_read_bind.
      by destruct (packages h !! TypeDefinition.package s) as [p|].
    + simpl. by rewrite app_nil_r.
  - unfold EnumReporter_reportBasics.
    rewrite textOf_seq; [|apply ReadOnly_reportBasics|read_only].
    destruct (textOf (reportBasics utf8 JSONString typeDef_) h) as [base|]; [|done]. simpl.
    rewrite textOf_read_bind. destruct (typeDefinitions h !! typeDef_) as [d|]; [|done]. simpl.
    destruct (TypeDefinition.self d) as [ |values| |]; try done.
    rewrite !textOf_seq by read_only. by rewrite !textOf_printf, textOf_values.
Qed.

End TypeDefinitions.

Section Packages.

Context (utf8 : u32string -> string) (JSONString : string -> stream).

Lemma textOf_reportAll (basics : ptr -> IO unit) typeDefs h :
  (forall p, ReadOnly (basics p)) ->
  textOf (reportAll basics typeDefs) h = sectionText h basics typeDefs.
Proof.
  intros Hbasics. unfold reportAll, sectionText.
  rewrite textOf_seq; [|apply ReadOnly_for_each; intros; read_only|read_only].
  rewrite (textOf_comma_loop _ _ (report basics));
    [|round_shape|intros; by apply ReadOnly_report].
  rewrite textOf_ret. destruct (mapM _ typeDefs); simpl; [|done]. by rewrite app_nil_r.
Qed.

Lemma textOf_report (basics : ptr -> IO unit) typeDef_ h :
  (forall p, ReadOnly (basics p)) ->
  textOf (report basics typeDef_) h = (fun t => t ++ ["}"%char]) <$> textOf (basics typeDef_) h.
Proof.
  intros Hbasics. unfold report. rewrite textOf_seq; [|done|read_only].
  by destruct (textOf (basics typeDef_) h).
Qed.

Lemma textOf_reportPackage package h :
  textOf (reportPackage utf8 JSONString package) h = packageText utf8 JSONString h package.
Proof.
  unfold reportPackage, packageText. rewrite textOf_read_bind.
  destruct (packages h !! package) as [p|]; [|done]. simpl.
  repeat (rewrite textOf_seq;
          [|first [apply ReadOnly_reportAll; intros;
                   first [apply ReadOnly_reportBasics | apply ReadOnly_ClassReporter_reportBasics
                         | apply ReadOnly_EnumReporter_reportBasics]
                  | read_only]..]).
  rewrite !textOf_printf, textOf_reportDocumentation.
  rewrite !textOf_reportAll
    by (first [apply ReadOnly_reportBasics | apply ReadOnly_ClassReporter_reportBasics
              | apply ReadOnly_EnumReporter_reportBasics]).
  destruct (sectionText h (reportBasics utf8 JSONString)
              (exportedOf TypeTypeValueType _)) as [valueTypes|]; [|done].
  destruct (sectionText h (ClassReporter_reportBasics utf8 JSONString) _) as [classes|]; [|done].
  destruct (sectionText h (EnumReporter_reportBasics utf8 JSONString) _) as [enums|]; [|done].
  destruct (sectionText h (reportBasics utf8 JSONString)
              (exportedOf TypeTypeProtocol _)) as [protocols|]; [|done].
  simpl. first [done | by rewrite <- !app_assoc].
Qed.

(** X8: [reportPackage] appends one object to stdout: the documentation
    member unless the documentation is empty, then the value types, the
    classes, the enums and the protocols, always in this order whatever the
    export order; each array holds the reports of the exported types of that
    kind in export order with commas between them.  It is undefined through
    a pointer to no package or when one of the reports is. *)
Theorem reportPackage_sections (package : ptr) (w : World) :
  reportPackage utf8 JSONString package w
  = match packageText utf8 JSONString (heap w) package with
    | Some text => Some (tt, emit w text)
    | None => None
    end.
Proof.
  rewrite textOf_run by apply ReadOnly_reportPackage. rewrite textOf_reportPackage.
  by destruct (packageText _ _ _ _).
Qed.

(** X9: the report of a package depends on its exported types only through
    the four lists: two packages with the same documentation whose exports
    have the same value types, classes, enums and protocols in the same order
    within each kind are reported alike, however the kinds are interleaved
    and whatever exports of other kinds there are. *)
Theorem reportPackage_export_order (package package' : ptr) (p p' : Package.t) (w : World) :
  packages (heap w) !! package = Some p ->
  packages (heap w) !! package' = Some p' ->
  Package.documentation p = Package.documentation p' ->
  (forall kind, kind <> TypeTypeOther ->
     exportedOf kind (Package.exportedTypes p) = exportedOf kind (Package.exportedTypes p')) ->
  reportPackage utf8 JSONString package w = reportPackage utf8 JSONString package' w.
Proof.
  intros Hp Hp' Hdoc Hlists.
  rewrite !textOf_run by apply ReadOnly_reportPackage. rewrite !textOf_reportPackage.
  unfold packageText. rewrite Hp, Hp'. simpl.
  by rewrite Hdoc, !Hlists.
Qed.

(** X10: every exported type of one of the four kinds is in exactly one of
    the four lists, once for each time it is exported; an exported type of
    another kind is in none. *)
Theorem exported_types_partition (exported : list ExportedType.t) :
  typeDefinition <$> List.filter reported (ExportedType.type <$> exported)
  ≡ₚ exportedOf TypeTypeValueType exported ++ exportedOf TypeTypeClass exported
     ++ exportedOf TypeTypeEnum exported ++ exportedOf TypeTypeProtocol exported.
Proof.
  unfold exportedOf. induction exported as [|e exported IH]; [done|].
  rewrite fmap_cons. cbn [List.filter]. unfold reported at 1.
  destruct (type (ExportedType.type e)) eqn:Hkind; rewrite ?Hkind;
    repeat (rewrite bool_decide_true by done || rewrite bool_decide_false by done);
    rewrite ?fmap_cons; simpl.
  - rewrite IH. by rewrite Permutation_middle.
  - rewrite IH. rewrite (app_assoc _ _ (_ :: _)), <- Permutation_middle.
    by rewrite <- app_assoc.
  - rewrite IH. rewrite (app_assoc _ _ (_ :: _)), (app_assoc _ _ (_ :: _)), <- Permutation_middle.
    by rewrite <- !app_assoc.
  - by rewrite IH.
  - apply IH.
Qed.

(** X11: [reportPackage] is defined exactly when the pointer is to a
    package and the reporter of each exported value type, class, enum and
    protocol is defined on its definition. *)
Theorem reportPackage_defined (package : ptr) (w : World) :
  is_Some (reportPackage utf8 JSONString package w)
  <-> exists p,
        packages (heap w) !! package = Some p
        /\ Forall (fun typeDef => is_Some (reportBasics utf8 JSONString typeDef w))
                  (exportedOf TypeTypeValueType (Package.exportedTypes p)
                   ++ exportedOf TypeTypeProtocol (Package.exportedTypes p))
        /\ Forall (fun typeDef => is_Some (ClassReporter_reportBasics utf8 JSONString typeDef w))
                  (exportedOf TypeTypeClass (Package.exportedTypes p))
        /\ Forall (fun typeDef => is_Some (EnumReporter_reportBasics utf8 JSONString typeDef w))
                  (exportedOf TypeTypeEnum (Package.exportedTypes p)).
Proof.
  assert (Hsection : forall (basics : ptr -> IO unit) typeDefs,
            (forall p, ReadOnly (basics p)) ->
            is_Some (sectionText (heap w) basics typeDefs)
            <-> Forall (fun typeDef => is_Some (basics typeDef w)) typeDefs).
  { intros basics typeDefs Hbasics. unfold sectionText. rewrite fmap_is_Some, mapM_is_Some.
    apply Forall_proper; [|done]. intros typeDef. simpl.
    rewrite textOf_report, fmap_is_Some by done. by rewrite textOf_is_Some. }
  rewrite textOf_is_Some by apply ReadOnly_reportPackage. rewrite textOf_reportPackage.
  unfold packageText. destruct (packages (heap w) !! package) as [p|]; simpl.
  2: { split; [by intros ?%is_Some_None|by intros (p & ? & _)]. }
  pose proof (Hsection (reportBasics utf8 JSONString)
                (exportedOf TypeTypeValueType (Package.exportedTypes p))
                (ReadOnly_reportBasics utf8 JSONString)) as Hvalues.
  pose proof (Hsection (ClassReporter_reportBasics utf8 JSONString)
                (exportedOf TypeTypeClass (Package.exportedTypes p))
                (ReadOnly_ClassReporter_reportBasics utf8 JSONString)) as Hclasses.
  pose proof (Hsection (EnumReporter_reportBasics utf8 JSONString)
                (exportedOf TypeTypeEnum (Package.exportedTypes p))
                (ReadOnly_EnumReporter_reportBasics utf8 JSONString)) as Henums.
  pose proof (Hsection (reportBasics utf8 JSONString)
                (exportedOf TypeTypeProtocol (Package.exportedTypes p))
                (ReadOnly_reportBasics utf8 JSONString)) as Hprotocols.
  split.
  - intros Hsome. exists p. split; [done|].
    destruct (sectionText _ (reportBasics _ _) (exportedOf TypeTypeValueType _)) eqn:Hv;
      [|by apply is_Some_None in Hsome].
    destruct (sectionText _ (ClassReporter_reportBasics _ _) _) eqn:Hc;
      [|by apply is_Some_None in Hsome].
    destruct (sectionText _ (EnumReporter_reportBasics _ _) _) eqn:He;
      [|by apply is_Some_None in Hsome].
    destruct (sectionText _ (reportBasics _ _) (exportedOf TypeTypeProtocol _)) eqn:Hpr;
      [|by apply is_Some_None in Hsome].
    split; [apply Forall_app; split|split]; eauto 6.
    + apply Hvalues. eauto.
    + apply Hprotocols. eauto.
    + apply Hclasses. eauto.
    + apply Henums. eauto.
  - intros (p' & [= <-] & [Hv Hpr]%Forall_app & Hc & He).
    apply Hvalues in Hv as [valueTypes ->]. apply Hclasses in Hc as [classes ->].
    apply Henums in He as [enums ->]. apply Hprotocols in Hpr as [protocols ->].
    simpl. eauto.
Qed.

End Packages.

(** ** Bytes that are never written *)

Lemma list_ascii_of_string_app (s t : string) :
  list_ascii_of_string (s ++ t)%string = list_ascii_of_string s ++ list_ascii_of_string t.
Proof. induction s as [|c s IH]; [done|]. simpl. by rewrite IH. Qed.

Lemma clean_app (s t : stream) : clean (s ++ t) = clean s && clean t.
Proof. apply forallb_app. Qed.

Lemma clean_c_str (s : string) : clean (list_ascii_of_string (c_str s)) = true.
Proof.
  induction s as [|c s IH]; [done|]. simpl.
  destruct (Ascii.eqb c "000") eqn:Hc; [done|]. simpl. by rewrite Hc.
Qed.

Lemma clean_spec (text : stream) : clean text = true -> "000"%char ∉ text.
Proof.
  unfold clean. rewrite forallb_forall. intros Hclean Hin.
  apply list_elem_of_In, Hclean in Hin. by rewrite Ascii.eqb_refl in Hin.
Qed.

Lemma c_str_idempotent (s : string) : c_str (c_str s) = c_str s.
Proof.
  induction s as [|c s IH]; [done|]. simpl.
  destruct (Ascii.eqb c "000") eqn:Hc; [done|]. simpl. by rewrite Hc, IH.
Qed.

(** X12: [reportType] always succeeds and writes no NUL byte: of the
    package name and of the type name only the bytes before the first NUL
    are written, as [%s] does, so a type whose names are cut there is
    reported alike. *)
Theorem reportType_writes_no_nul (type : Ty) (tc : TypeContext) (w : World) :
  reportType type tc w = Some (tt, emit w (list_ascii_of_string (typeText type tc)))
  /\ ("000"%char ∉ list_ascii_of_string (typeText type tc))
  /\ typeText type tc
     = typeText {| type := PackageReporter.type type; typeDefinition := typeDefinition type;
                   genericVariableIndex := genericVariableIndex type;
                   typePackage := c_str (typePackage type);
                   optional := optional type;
                   toString := fun tc => c_str (toString type tc) |} tc.
Proof.
  split; [done|]. split.
  - apply clean_spec. unfold typeText, q.
    rewrite !list_ascii_of_string_app, !clean_app, !clean_c_str.
    by destruct (optional type).
  - unfold typeText. simpl. by rewrite !c_str_idempotent.
Qed.

(** ** The further properties on the sample declarations *)

Lemma reportGenericArguments_last_writer_witness :
  reportGenericArguments Sample.utf8 Sample.JSONString SampleExports.clash
    [Sample.generic 0 "Any"; Sample.generic 0 "Some"] 0 Sample.noContext Sample.world
  = Some (tt, emit Sample.world
                (genericArgumentsText Sample.utf8 Sample.JSONString Sample.noContext
                   [Sample.u32 "B"; []] [Sample.generic 0 "Any"; Sample.generic 0 "Some"])).
Proof.
  apply (reportGenericArguments_last_writer Sample.utf8 Sample.JSONString SampleExports.clash
           [Sample.generic 0 "Any"; Sample.generic 0 "Some"] 0 Sample.noContext Sample.world).
  apply (bool_decide_unpack _). by vm_compute.
Defined.

Lemma reportGenericArguments_order_witness :
  reportGenericArguments Sample.utf8 Sample.JSONString
    (Function.genericArgumentVariables Sample.area)
    (Function.genericArgumentConstraints Sample.area) 0 Sample.noContext Sample.world
  = reportGenericArguments Sample.utf8 Sample.JSONString
      (reverse (Function.genericArgumentVariables Sample.area))
      (Function.genericArgumentConstraints Sample.area) 0 Sample.noContext Sample.world.
Proof.
  apply (reportGenericArguments_order Sample.utf8 Sample.JSONString).
  - symmetry. apply reverse_Permutation.
  - apply (bool_decide_unpack _). by vm_compute.
Defined.

Lemma reportPackage_export_order_witness :
  reportPackage Sample.utf8 Sample.JSONString 0 SampleExports.world
  = reportPackage Sample.utf8 Sample.JSONString 1 SampleExports.world.
Proof.
  apply (reportPackage_export_order Sample.utf8 Sample.JSONString 0 1 Sample.demo
           SampleExports.shuffled SampleExports.world); try reflexivity.
  intros kind Hkind. by destruct kind.
Defined.

End PackageReporterMore.
